(** * Desktop-Schedule: reminder monitor, task store and AI gateway

    A shallow embedding of the TypeScript sources

    - [types.ts]                   (the [Task] record and [TaskCategory]),
    - [hooks/useTaskScheduler.ts]  (the per-second reminder check),
    - [App.tsx]                    (toggle, delete, load and save of tasks),
    - [services/gemini.ts]         (categorisation and daily summary),

    together with the parts of the host platform they call: the ECMAScript
    [Date] accessors, [JSON.parse] and [JSON.stringify] at the type
    [Task[]].

    Conventions.  A JavaScript number that the program only ever uses as an
    integer (epoch milliseconds, weekday indices) is a [Z]; a JavaScript
    string is a [string] holding its UTF-8 bytes; the [Set<string>] of
    notified keys is a [gset string]; the task array is a [list Task]. *)

From Stdlib Require Import ZArith List Ascii String Bool Lia.
From Stdlib Require Import Sorting.Permutation Sorting.Sorted.
From stdpp Require Import base decidable strings gmap.
Import ListNotations.

Local Open Scope string_scope.
Local Open Scope Z_scope.

(** ** Data model ([types.ts]) *)

Inductive TaskCategory : Type :=
| RESEARCH
| ADMIN
| PERSONAL
| OTHER.

Record Task : Type := mkTask {
  id : string;
  content : string;
  remindTime : string;       (* ISO string *)
  repeatDays : list Z;       (* 0-6 (Sunday-Saturday) *)
  category : TaskCategory;
  isActive : bool;
  isCompleted : bool;
  createdAt : Z
}.

#[global] Instance TaskCategory_eq_dec : EqDecision TaskCategory.
Proof. solve_decision. Defined.

#[global] Instance Task_eq_dec : EqDecision Task.
Proof. solve_decision. Defined.

(** ** Decimal rendering of integers

    [Number::toString] on an integer-valued number below 10^21 in
    magnitude: its decimal digits, with a leading minus sign when it is
    negative.  Used by the template literal that builds the notification
    key and by [JSON.stringify]. *)

Definition digit_char (d : N) : ascii :=
  ascii_of_N (48 + d).

Fixpoint digits_go (fuel : nat) (n : N) (acc : string) : string :=
  match fuel with
  | O => acc
  | S fuel' =>
      let acc' := String (digit_char (n mod 10)) acc in
      if (n / 10 =? 0)%N then acc' else digits_go fuel' (n / 10) acc'
  end.

Definition digits_of_N (n : N) : string :=
  digits_go (S (N.to_nat (N.log2 n))) n EmptyString.

Definition string_of_Z (z : Z) : string :=
  match z with
  | Z0 => "0"
  | Zpos p => digits_of_N (Npos p)
  | Zneg p => String "-" (digits_of_N (Npos p))
  end.

(** ** The host's [Date] ([ECMA-262, 21.4.1]) *)

Definition msPerMinute : Z := 60000.
Definition msPerHour : Z := 3600000.
Definition msPerDay : Z := 86400000.

(** What the program takes from its host.  [Date_parse s] is
    [new Date(s).getTime()]: the time value in epoch milliseconds, or [None]
    for an invalid date ([NaN]).  [LocalTZA t] is the offset of local time
    from UTC at the instant [t], in milliseconds.  [toLocaleTimeString] is
    [Date.prototype.toLocaleTimeString('zh-TW', {hour: '2-digit', minute:
    '2-digit'})] on a time value. *)
Class Host : Type := {
  Date_parse : string -> option Z;
  LocalTZA : Z -> Z;
  toLocaleTimeString : option Z -> string
}.

Section Scheduler.

Context `{Host}.

Definition LocalTime (t : Z) : Z := t + LocalTZA t.

Definition getHours (t : Z) : Z := (LocalTime t / msPerHour) mod 24.
Definition getMinutes (t : Z) : Z := (LocalTime t / msPerMinute) mod 60.
Definition getDay (t : Z) : Z := (LocalTime t / msPerDay + 4) mod 7.

(** The local calendar day an instant falls in, counted from the epoch. *)
Definition localDay (t : Z) : Z := LocalTime t / msPerDay.

(** ** The reminder check ([hooks/useTaskScheduler.ts]) *)

Record Notification : Type := mkNotification {
  title : string;
  body : string;
  icon : string
}.

(** One pass through the [shouldNotify] branch: when it happened, for
    which task, and the [Notification] object that was created, if the
    permission allowed one. *)
Record Fire : Type := mkFire {
  fire_now : Z;
  fire_task : Task;
  delivered : option Notification
}.

(** The state the hook keeps between checks: the [notifiedTasks] set,
    and the history of what fired. *)
Record Monitor : Type := mkMonitor {
  notified : gset string;
  fired : list Fire
}.

Definition initialMonitor : Monitor :=
  {| notified := ∅; fired := [] |}.

Definition notificationKey (task_id : string) (taskTime : Z) : string :=
  task_id ++ "-" ++ string_of_Z taskTime.

Definition includes (x : Z) (l : list Z) : bool :=
  existsb (Z.eqb x) l.

Definition showNotification (task : Task) : Notification :=
  {| title := "AI Smart Assistant 提醒";
     body := content task;
     icon := "https://picsum.photos/64/64" |}.

(** The decision taken once the task is inside the window and its key is
    not yet in the set. *)
Definition shouldNotify (now taskTime : Z) (task : Task) : bool :=
  let currentDay := getDay now in
  let isRecurringToday :=
    (0 <? Z.of_nat (length (repeatDays task))) && includes currentDay (repeatDays task) in
  let isOneTime := Z.of_nat (length (repeatDays task)) =? 0 in
  if isOneTime then true
  else if isRecurringToday then
    (getHours taskTime =? getHours now) && (getMinutes taskTime =? getMinutes now)
  else false.

Definition inWindow (now taskTime : Z) : bool :=
  let timeDiff := taskTime - now in
  (timeDiff <=? 0) && (timeDiff >? -60000).

(** The body of [tasks.forEach] in [checkTasks]; [granted] is
    ['Notification' in window && Notification.permission === 'granted'].
    An invalid date makes [timeDiff] a [NaN], which fails both
    comparisons.  The [Notification] constructor is taken to return;
    [checkTaskThrowing] below is the same body without that
    assumption. *)
Definition checkTask (now : Z) (granted : bool) (st : Monitor) (task : Task) : Monitor :=
  if negb (isActive task) || isCompleted task then st
  else
    match Date_parse (remindTime task) with
    | None => st
    | Some taskTime =>
        if inWindow now taskTime then
          let key := notificationKey (id task) taskTime in
          if negb (bool_decide (key ∈ notified st)) then
            if shouldNotify now taskTime task then
              {| notified := {[ key ]} ∪ notified st;
                 fired := (fired st ++
                   [ {| fire_now := now;
                        fire_task := task;
                        delivered := if granted then Some (showNotification task) else None |} ])%list |}
            else st
          else st
        else st
    end.

Definition checkTasks (now : Z) (granted : bool) (tasks : list Task) (st : Monitor) : Monitor :=
  fold_left (checkTask now granted) tasks st.

(** The interval timer: one [checkTasks] per tick, each with its own
    clock reading and permission state. *)
Definition Tick : Type := (Z * bool)%type.

Definition run (tasks : list Task) (ticks : list Tick) (st : Monitor) : Monitor :=
  fold_left (fun st tk => checkTasks (fst tk) (snd tk) tasks st) ticks st.

(** The history restricted to one task. *)
Definition firesOf (t : Task) (l : list Fire) : list Fire :=
  List.filter (fun f => bool_decide (fire_task f = t)) l.

End Scheduler.

(** ** The task store ([App.tsx]) *)

(** [{ ...t, isCompleted: !t.isCompleted }] *)
Definition flipCompleted (t : Task) : Task :=
  {| id := id t;
     content := content t;
     remindTime := remindTime t;
     repeatDays := repeatDays t;
     category := category t;
     isActive := isActive t;
     isCompleted := negb (isCompleted t);
     createdAt := createdAt t |}.

Definition toggleTask (id0 : string) (prev : list Task) : list Task :=
  map (fun t => if String.eqb (id t) id0 then flipCompleted t else t) prev.

Definition deleteTask (id0 : string) (prev : list Task) : list Task :=
  List.filter (fun t => negb (String.eqb (id t) id0)) prev.

(** ** JSON ([ECMA-404], [ECMA-262, 25.5]) *)

(** A parsed JSON text.  A number is kept exactly, as [m * 10^e] with
    [e <= 0] and no trailing zero in [m] when [e < 0]; an integer is
    [JNum z 0].  An object keeps its properties in the order in which
    they were first created. *)
#[warnings="-register-all"]
Inductive value : Type :=
| JNull
| JBool (b : bool)
| JNum (m : Z) (e : Z)
| JStr (s : string)
| JArr (l : list value)
| JObj (l : list (string * value)).

Definition dquote : ascii := "034"%char.
Definition backslash : ascii := "092"%char.

Definition is_ws (c : ascii) : bool :=
  Ascii.eqb c " " || Ascii.eqb c "009" || Ascii.eqb c "010" || Ascii.eqb c "013".

Fixpoint skip_ws (s : string) : string :=
  match s with
  | String c s' => if is_ws c then skip_ws s' else s
  | EmptyString => s
  end.

(** *** Strings *)

Definition hex_char (d : N) : ascii :=
  if (d <? 10)%N then ascii_of_N (48 + d) else ascii_of_N (87 + d).

Definition hex_val (c : ascii) : option N :=
  let n := N_of_ascii c in
  if ((48 <=? n) && (n <=? 57))%N then Some (n - 48)%N
  else if ((97 <=? n) && (n <=? 102))%N then Some (n - 87)%N
  else if ((65 <=? n) && (n <=? 70))%N then Some (n - 55)%N
  else None.

(** [QuoteJSONString]: the characters a JSON string may not hold raw are
    the double quote, the backslash and the controls below U+0020. *)
Definition escape_char (c : ascii) : string :=
  let n := N_of_ascii c in
  if Ascii.eqb c dquote then String backslash (String dquote EmptyString)
  else if Ascii.eqb c backslash then String backslash (String backslash EmptyString)
  else if (n =? 8)%N then String backslash "b"
  else if (n =? 9)%N then String backslash "t"
  else if (n =? 10)%N then String backslash "n"
  else if (n =? 12)%N then String backslash "f"
  else if (n =? 13)%N then String backslash "r"
  else if (n <? 32)%N then
    String backslash (String "u" (String "0" (String "0"
      (String (hex_char (n / 16)) (String (hex_char (n mod 16)) EmptyString)))))
  else String c EmptyString.

Fixpoint escape (s : string) : string :=
  match s with
  | EmptyString => EmptyString
  | String c s' => escape_char c ++ escape s'
  end.

Definition quote (s : string) : string :=
  String dquote (escape s ++ String dquote EmptyString).

(** What the reader of a string literal produces: a byte taken as it
    stands, or the UTF-16 code unit of a [\uXXXX] escape. *)
Inductive piece : Type :=
| Raw (c : ascii)
| Unit16 (u : N).

Definition simple_escape (e : ascii) : option ascii :=
  if Ascii.eqb e dquote then Some dquote
  else if Ascii.eqb e backslash then Some backslash
  else if Ascii.eqb e "/" then Some "/"%char
  else if Ascii.eqb e "b" then Some "008"%char
  else if Ascii.eqb e "f" then Some "012"%char
  else if Ascii.eqb e "n" then Some "010"%char
  else if Ascii.eqb e "r" then Some "013"%char
  else if Ascii.eqb e "t" then Some "009"%char
  else None.

Definition hex4 (a b c d : ascii) : option N :=
  match hex_val a, hex_val b, hex_val c, hex_val d with
  | Some x, Some y, Some z, Some w => Some (((x * 16 + y) * 16 + z) * 16 + w)%N
  | _, _, _, _ => None
  end.

(** Reads a string literal after its opening quote, up to and including
    the closing one. *)
Fixpoint read_string (s : string) : option (list piece * string) :=
  match s with
  | EmptyString => None
  | String c s1 =>
      if Ascii.eqb c dquote then Some ([], s1)
      else if Ascii.eqb c backslash then
        match s1 with
        | EmptyString => None
        | String e s2 =>
            if Ascii.eqb e "u" then
              match s2 with
              | String h1 (String h2 (String h3 (String h4 s3))) =>
                  match hex4 h1 h2 h3 h4 with
                  | Some u =>
                      match read_string s3 with
                      | Some (ps, rest) => Some (Unit16 u :: ps, rest)
                      | None => None
                      end
                  | None => None
                  end
              | _ => None
              end
            else
              match simple_escape e with
              | Some ch =>
                  match read_string s2 with
                  | Some (ps, rest) => Some (Raw ch :: ps, rest)
                  | None => None
                  end
              | None => None
              end
        end
      else if (N_of_ascii c <? 32)%N then None
      else
        match read_string s1 with
        | Some (ps, rest) => Some (Raw c :: ps, rest)
        | None => None
        end
  end.

(** The (generalised) UTF-8 bytes of a code point. *)
Definition utf8_encode (cp : N) : string :=
  if (cp <? 128)%N then String (ascii_of_N cp) EmptyString
  else if (cp <? 2048)%N then
    String (ascii_of_N (192 + cp / 64))
      (String (ascii_of_N (128 + cp mod 64)) EmptyString)
  else if (cp <? 65536)%N then
    String (ascii_of_N (224 + cp / 4096))
      (String (ascii_of_N (128 + (cp / 64) mod 64))
        (String (ascii_of_N (128 + cp mod 64)) EmptyString))
  else
    String (ascii_of_N (240 + cp / 262144))
      (String (ascii_of_N (128 + (cp / 4096) mod 64))
        (String (ascii_of_N (128 + (cp / 64) mod 64))
          (String (ascii_of_N (128 + cp mod 64)) EmptyString))).

Definition is_high_surrogate (u : N) : bool := ((55296 <=? u) && (u <=? 56319))%N.
Definition is_low_surrogate (u : N) : bool := ((56320 <=? u) && (u <=? 57343))%N.

(** Joins the pieces into the string's bytes; two escapes that form a
    surrogate pair denote one code point. *)
Fixpoint assemble (ps : list piece) : string :=
  match ps with
  | [] => EmptyString
  | Raw c :: ps1 => String c (assemble ps1)
  | Unit16 hi :: ps1 =>
      match ps1 with
      | Unit16 lo :: ps2 =>
          if is_high_surrogate hi && is_low_surrogate lo
          then utf8_encode (65536 + (hi - 55296) * 1024 + (lo - 56320))%N ++ assemble ps2
          else utf8_encode hi ++ assemble ps1
      | _ => utf8_encode hi ++ assemble ps1
      end
  end.

Definition parse_string (s : string) : option (string * string) :=
  match read_string s with
  | Some (ps, rest) => Some (assemble ps, rest)
  | None => None
  end.

(** *** Numbers *)

Definition digit_val (c : ascii) : option Z :=
  let n := N_of_ascii c in
  if ((48 <=? n) && (n <=? 57))%N then Some (Z.of_N (n - 48)) else None.

(** Reads a run of digits onto [acc]: the number read, how many digits
    were added to [count], and what follows them. *)
Fixpoint read_digits (s : string) (acc count : Z) : Z * Z * string :=
  match s with
  | String c s' =>
      match digit_val c with
      | Some d => read_digits s' (acc * 10 + d) (count + 1)
      | None => (acc, count, s)
      end
  | EmptyString => (acc, count, s)
  end.

Fixpoint strip_zeros (fuel : nat) (m e : Z) : Z * Z :=
  match fuel with
  | O => (m, e)
  | S fuel' =>
      if (e <? 0) && (m mod 10 =? 0) then strip_zeros fuel' (m / 10) (e + 1)
      else (m, e)
  end.

Definition normalise (m e : Z) : value :=
  if m =? 0 then JNum 0 0
  else if 0 <=? e then JNum (m * 10 ^ e) 0
  else let '(m', e') := strip_zeros (Z.to_nat (- e)) m e in JNum m' e'.

(** [. digit+], read onto the integer part. *)
Definition read_fraction (s : string) (ip : Z) : option (Z * Z * string) :=
  match s with
  | String c s' =>
      if Ascii.eqb c "." then
        let '(m, k, rest) := read_digits s' ip 0 in
        if k =? 0 then None else Some (m, k, rest)
      else Some (ip, 0, s)
  | EmptyString => Some (ip, 0, s)
  end.

(** [(e|E) (+|-)? digit+] *)
Definition read_exponent (s : string) : option (Z * string) :=
  match s with
  | String c s' =>
      if Ascii.eqb c "e" || Ascii.eqb c "E" then
        let '(negative, s1) :=
          match s' with
          | String g s'' =>
              if Ascii.eqb g "-" then (true, s'')
              else if Ascii.eqb g "+" then (false, s'')
              else (false, s')
          | EmptyString => (false, s')
          end in
        let '(x, k, rest) := read_digits s1 0 0 in
        if k =? 0 then None else Some (if negative then - x else x, rest)
      else Some (0, s)
  | EmptyString => Some (0, s)
  end.

Definition parse_number (s : string) : option (value * string) :=
  let '(negative, s1) :=
    match s with
    | String c s' => if Ascii.eqb c "-" then (true, s') else (false, s)
    | EmptyString => (false, s)
    end in
  match s1 with
  | EmptyString => None
  | String c s2 =>
      match digit_val c with
      | None => None
      | Some d =>
          let '(ip, _, s3) := if d =? 0 then (0, 1, s2) else read_digits s2 d 1 in
          match read_fraction s3 ip with
          | None => None
          | Some (m, k, s4) =>
              match read_exponent s4 with
              | None => None
              | Some (x, s5) =>
                  Some (normalise (if negative then - m else m) (x - k), s5)
              end
          end
      end
  end.

(** *** Values *)

Fixpoint strip_prefix (p s : string) : option string :=
  match p with
  | EmptyString => Some s
  | String a p' =>
      match s with
      | String b s' => if Ascii.eqb a b then strip_prefix p' s' else None
      | EmptyString => None
      end
  end.

(** [CreateDataProperty]: a key met again keeps its place and takes the
    new value. *)
Fixpoint obj_set (k : string) (v : value) (l : list (string * value)) : list (string * value) :=
  match l with
  | [] => [(k, v)]
  | (k', v') :: l' =>
      if String.eqb k' k then (k', v) :: l' else (k', v') :: obj_set k v l'
  end.

Fixpoint obj_get (k : string) (l : list (string * value)) : option value :=
  match l with
  | [] => None
  | (k', v') :: l' => if String.eqb k' k then Some v' else obj_get k l'
  end.

(** Inside an array or an object a value is followed by a comma or by
    the closing bracket. *)
Definition delimited (s : string) : bool :=
  match s with
  | String c _ => Ascii.eqb c "," || Ascii.eqb c "]" || Ascii.eqb c "}"
  | EmptyString => false
  end.

(** Each function skips the white space before what it reads; the fuel
    bounds the nesting and the number of elements, both of which the
    length of the text bounds. *)
Fixpoint parse_value (fuel : nat) (s : string) : option (value * string) :=
  match fuel with
  | O => None
  | S fuel' =>
      match skip_ws s with
      | EmptyString => None
      | String c s1 =>
          if Ascii.eqb c "{" then
            match skip_ws s1 with
            | String c2 s2 =>
                if Ascii.eqb c2 "}" then Some (JObj [], s2)
                else parse_members fuel' s1 []
            | EmptyString => None
            end
          else if Ascii.eqb c "[" then
            match skip_ws s1 with
            | String c2 s2 =>
                if Ascii.eqb c2 "]" then Some (JArr [], s2)
                else parse_elements fuel' s1 []
            | EmptyString => None
            end
          else if Ascii.eqb c dquote then
            match parse_string s1 with
            | Some (str, rest) => Some (JStr str, rest)
            | None => None
            end
          else if Ascii.eqb c "t" then
            match strip_prefix "rue" s1 with
            | Some rest => Some (JBool true, rest)
            | None => None
            end
          else if Ascii.eqb c "f" then
            match strip_prefix "alse" s1 with
            | Some rest => Some (JBool false, rest)
            | None => None
            end
          else if Ascii.eqb c "n" then
            match strip_prefix "ull" s1 with
            | Some rest => Some (JNull, rest)
            | None => None
            end
          else parse_number (String c s1)
      end
  end
with parse_elements (fuel : nat) (s : string) (acc : list value) : option (value * string) :=
  match fuel with
  | O => None
  | S fuel' =>
      match parse_value fuel' s with
      | Some (v, s1) =>
          match skip_ws s1 with
          | String c s2 =>
              if Ascii.eqb c "," then parse_elements fuel' s2 (acc ++ [v])%list
              else if Ascii.eqb c "]" then Some (JArr (acc ++ [v])%list, s2)
              else None
          | EmptyString => None
          end
      | None => None
      end
  end
with parse_members (fuel : nat) (s : string) (acc : list (string * value)) : option (value * string) :=
  match fuel with
  | O => None
  | S fuel' =>
      match skip_ws s with
      | String q s1 =>
          if Ascii.eqb q dquote then
            match parse_string s1 with
            | Some (k, s2) =>
                match skip_ws s2 with
                | String c s3 =>
                    if Ascii.eqb c ":" then
                      match parse_value fuel' s3 with
                      | Some (v, s4) =>
                          match skip_ws s4 with
                          | String d s5 =>
                              if Ascii.eqb d "," then parse_members fuel' s5 (obj_set k v acc)
                              else if Ascii.eqb d "}" then Some (JObj (obj_set k v acc), s5)
                              else None
                          | EmptyString => None
                          end
                      | None => None
                      end
                    else None
                | EmptyString => None
                end
            | None => None
            end
          else None
      | EmptyString => None
      end
  end.

(** [JSON.parse(text)]; [None] stands for the [SyntaxError] it throws. *)
Definition JSON_parse (text : string) : option value :=
  match parse_value (S (String.length text)) text with
  | Some (v, rest) =>
      match skip_ws rest with
      | EmptyString => Some v
      | String _ _ => None
      end
  | None => None
  end.

(** *** [JSON.stringify] at the type [Task[]] *)

Definition category_string (c : TaskCategory) : string :=
  match c with
  | RESEARCH => "研發"
  | ADMIN => "行政"
  | PERSONAL => "個人"
  | OTHER => "其他"
  end.

Definition category_of_string (s : string) : option TaskCategory :=
  if String.eqb s "研發" then Some RESEARCH
  else if String.eqb s "行政" then Some ADMIN
  else if String.eqb s "個人" then Some PERSONAL
  else if String.eqb s "其他" then Some OTHER
  else None.

Fixpoint join (sep : string) (l : list string) : string :=
  match l with
  | [] => EmptyString
  | [x] => x
  | x :: l' => x ++ sep ++ join sep l'
  end.

Definition stringify_bool (b : bool) : string :=
  if b then "true" else "false".

Definition stringify_numbers (l : list Z) : string :=
  "[" ++ join "," (map string_of_Z l) ++ "]".

(** The own enumerable properties, in the order in which the object
    literal of [handleAddTask] creates them (a spread copy keeps it). *)
Definition stringify_task (t : Task) : string :=
  "{" ++ quote "id" ++ ":" ++ quote (id t) ++ ","
      ++ quote "content" ++ ":" ++ quote (content t) ++ ","
      ++ quote "remindTime" ++ ":" ++ quote (remindTime t) ++ ","
      ++ quote "repeatDays" ++ ":" ++ stringify_numbers (repeatDays t) ++ ","
      ++ quote "category" ++ ":" ++ quote (category_string (category t)) ++ ","
      ++ quote "isActive" ++ ":" ++ stringify_bool (isActive t) ++ ","
      ++ quote "isCompleted" ++ ":" ++ stringify_bool (isCompleted t) ++ ","
      ++ quote "createdAt" ++ ":" ++ string_of_Z (createdAt t) ++ "}".

Definition JSON_stringify (tasks : list Task) : string :=
  "[" ++ join "," (map stringify_task tasks) ++ "]".

(** The object a task is at run time, and the typed reading of a parsed
    value through the fields of the [Task] interface. *)
Definition value_of_task (t : Task) : value :=
  JObj [ ("id", JStr (id t));
         ("content", JStr (content t));
         ("remindTime", JStr (remindTime t));
         ("repeatDays", JArr (map (fun d => JNum d 0) (repeatDays t)));
         ("category", JStr (category_string (category t)));
         ("isActive", JBool (isActive t));
         ("isCompleted", JBool (isCompleted t));
         ("createdAt", JNum (createdAt t) 0) ].

Definition value_of_tasks (tasks : list Task) : value :=
  JArr (map value_of_task tasks).

Definition as_string (v : value) : option string :=
  match v with JStr s => Some s | _ => None end.

Definition as_bool (v : value) : option bool :=
  match v with JBool b => Some b | _ => None end.

Definition as_integer (v : value) : option Z :=
  match v with JNum m 0 => Some m | _ => None end.

Fixpoint all_some {A : Type} (l : list (option A)) : option (list A) :=
  match l with
  | [] => Some []
  | Some a :: l' =>
      match all_some l' with
      | Some r => Some (a :: r)
      | None => None
      end
  | None :: _ => None
  end.

Definition as_integers (v : value) : option (list Z) :=
  match v with JArr l => all_some (map as_integer l) | _ => None end.

Definition field {A : Type} (name : string) (read : value -> option A)
    (l : list (string * value)) : option A :=
  match obj_get name l with
  | Some v => read v
  | None => None
  end.

Definition task_of_value (v : value) : option Task :=
  match v with
  | JObj l =>
      match field "id" as_string l, field "content" as_string l,
            field "remindTime" as_string l, field "repeatDays" as_integers l with
      | Some i, Some c, Some r, Some ds =>
          match field "category" as_string l, field "isActive" as_bool l,
                field "isCompleted" as_bool l, field "createdAt" as_integer l with
          | Some cs, Some a, Some d, Some n =>
              match category_of_string cs with
              | Some cat =>
                  Some {| id := i; content := c; remindTime := r; repeatDays := ds;
                          category := cat; isActive := a; isCompleted := d;
                          createdAt := n |}
              | None => None
              end
          | _, _, _, _ => None
          end
      | _, _, _, _ => None
      end
  | _ => None
  end.

Definition tasks_of_value (v : value) : option (list Task) :=
  match v with
  | JArr l => all_some (map task_of_value l)
  | _ => None
  end.

(** *** Persistence ([App.tsx], the two storage effects) *)

(** [localStorage.setItem(STORAGE_KEY, JSON.stringify(tasks))] *)
Definition saveTasks (tasks : list Task) : option string :=
  Some (JSON_stringify tasks).

(** What the load effect does with [localStorage.getItem(STORAGE_KEY)]:
    nothing when the item is missing, empty or not JSON; otherwise
    [setTasks] with the parsed value, which is a task list or, the cast
    being unchecked, anything else. *)
Inductive Loaded : Type :=
| Kept
| Replaced (tasks : list Task)
| Foreign (v : value).

Definition loadTasks (saved : option string) : Loaded :=
  match saved with
  | None => Kept
  | Some EmptyString => Kept
  | Some text =>
      match JSON_parse text with
      | None => Kept
      | Some v =>
          match tasks_of_value v with
          | Some tasks => Replaced tasks
          | None => Foreign v
          end
      end
  end.

(** ** The AI gateway ([services/gemini.ts]) *)

Inductive error : Type :=
| RequestError (reason : string)
| SyntaxError
| TypeError.

(** How an evaluation ends: with a value, or with a thrown error (for an
    [async] function: a promise fulfilled or rejected). *)
Inductive completion (A : Type) : Type :=
| Normal (a : A)
| Throw (e : error).

Arguments Normal {A} a.
Arguments Throw {A} e.

Record GenerationConfig : Type := mkConfig {
  responseMimeType : string;
  (* the properties of the object schema, each a string with its enum *)
  responseSchema : list (string * list string)
}.

Record Request : Type := mkRequest {
  model : string;
  contents : string;
  config : option GenerationConfig
}.

(** [await ai.models.generateContent(request)]: the call is rejected, or
    it answers a response whose [text] is a string or [undefined]. *)
Class Gemini : Type := {
  generateContent : Request -> completion (option string)
}.

(** Computations that may throw and that record the requests they send. *)
Definition Async (A : Type) : Type :=
  list Request -> completion A * list Request.

Definition ret {A : Type} (a : A) : Async A :=
  fun sent => (Normal a, sent).

Definition bind {A B : Type} (m : Async A) (k : A -> Async B) : Async B :=
  fun sent =>
    match m sent with
    | (Normal a, sent') => k a sent'
    | (Throw e, sent') => (Throw e, sent')
    end.

Definition lift {A : Type} (c : completion A) : Async A :=
  fun sent => (c, sent).

Definition try_catch {A : Type} (m : Async A) (handler : error -> Async A) : Async A :=
  fun sent =>
    match m sent with
    | (Normal a, sent') => (Normal a, sent')
    | (Throw e, sent') => handler e sent'
    end.

Definition request `{Gemini} (r : Request) : Async (option string) :=
  fun sent => (generateContent r, (sent ++ [r])%list).

Notation "'let*' x ':=' m 'in' k" := (bind m (fun x => k))
  (at level 10, x name, m at level 100, k at level 200).

Definition GEMINI_MODEL : string := "gemini-3-flash-preview".

(** [text || fallback] on a string or [undefined]: the empty string is
    falsy too. *)
Definition text_or (text : option string) (fallback : string) : string :=
  match text with
  | None => fallback
  | Some EmptyString => fallback
  | Some s => s
  end.

Definition newline : string := String "010" EmptyString.

Section Gateway.

Context `{Host} `{Gemini}.

Definition describeTask (t : Task) : string :=
  "- " ++ content t ++ " (" ++ toLocaleTimeString (Date_parse (remindTime t)) ++ ")".

Definition summaryPrompt (taskDescriptions : string) : string :=
  "
    你是一位專業的職場秘書。請閱讀以下今天的待辦事項，並以繁體中文撰寫一段 100 字以內的「今日重點摘要」。
    語氣要專業、溫柔且充滿活力。
    在摘要之後，請附上一句簡短的職場鼓勵語。

    待辦事項清單：
    " ++ taskDescriptions ++ "
  ".

(** The argument of [generateContent] in [getDailySummary]. *)
Definition summaryRequest (tasks : list Task) : Request :=
  let taskDescriptions :=
    join newline
      (map describeTask (List.filter (fun t => negb (isCompleted t)) tasks)) in
  let prompt := summaryPrompt taskDescriptions in
  {| model := GEMINI_MODEL; contents := prompt; config := None |}.

Definition getDailySummary (tasks : list Task) : Async string :=
  if Nat.eqb (length tasks) 0 then
    ret "目前沒有待辦事項。享受這美好的一天吧！"
  else
    try_catch
      (let* response := request (summaryRequest tasks) in
       ret (text_or response "無法生成摘要。"))
      (fun _ => ret "連線發生錯誤，無法生成摘要。").

Definition categoryPrompt (content0 : string) : string :=
  "
    請將以下任務歸類為其中一個類別：研發, 行政, 個人, 其他。
    任務內容：" ++ content0 ++ "
    
    只需回傳類別名稱，不要有其他文字。
  ".

Definition categoryConfig : GenerationConfig :=
  {| responseMimeType := "application/json";
     responseSchema := [ ("category", ["研發"; "行政"; "個人"; "其他"]) ] |}.

(** [result.category] on a parsed value: a [TypeError] on [null], the
    own property of an object, [undefined] on everything else. *)
Definition get_category (result : value) : completion (option value) :=
  match result with
  | JNull => Throw TypeError
  | JObj l => Normal (obj_get "category" l)
  | _ => Normal None
  end.

Definition JSON_parse_or_throw (text : string) : completion value :=
  match JSON_parse text with
  | Some v => Normal v
  | None => Throw SyntaxError
  end.

Definition switchCategory (categoryStr : option value) : TaskCategory :=
  match categoryStr with
  | Some (JStr s) =>
      if String.eqb s "研發" then RESEARCH
      else if String.eqb s "行政" then ADMIN
      else if String.eqb s "個人" then PERSONAL
      else OTHER
  | _ => OTHER
  end.

(** The argument of [generateContent] in [categorizeTask]. *)
Definition categoryRequest (content0 : string) : Request :=
  let prompt := categoryPrompt content0 in
  {| model := GEMINI_MODEL; contents := prompt; config := Some categoryConfig |}.

Definition categorizeTask (content0 : string) : Async TaskCategory :=
  try_catch
    (let* response := request (categoryRequest content0) in
     let* result := lift (JSON_parse_or_throw (text_or response "{}")) in
     let* categoryStr := lift (get_category result) in
     ret (switchCategory categoryStr))
    (fun _ => ret OTHER).

End Gateway.

(** ** A host to evaluate on

    The date-time string format of [ECMA-262, 21.4.1.32] in the form
    [toISOString] writes it, [YYYY-MM-DDTHH:mm:ss.sssZ]; local time eight
    hours ahead of UTC all year round (Asia/Taipei). *)

Fixpoint read_fixed (n : nat) (s : string) (acc : Z) : option (Z * string) :=
  match n with
  | O => Some (acc, s)
  | S n' =>
      match s with
      | String c s' =>
          match digit_val c with
          | Some d => read_fixed n' s' (acc * 10 + d)
          | None => None
          end
      | EmptyString => None
      end
  end.

Definition expect (c : ascii) (s : string) : option string :=
  match s with
  | String c' s' => if Ascii.eqb c c' then Some s' else None
  | EmptyString => None
  end.

Definition is_leap (y : Z) : bool :=
  ((y mod 4 =? 0) && negb (y mod 100 =? 0)) || (y mod 400 =? 0).

Definition days_in_month (y m : Z) : Z :=
  if m =? 2 then (if is_leap y then 29 else 28)
  else if (m =? 4) || (m =? 6) || (m =? 9) || (m =? 11) then 30
  else 31.

(** Days from 1970-01-01 to the given civil date. *)
Definition days_from_civil (y m d : Z) : Z :=
  let y' := if m <=? 2 then y - 1 else y in
  let era := y' / 400 in
  let yoe := y' - era * 400 in
  let doy := (153 * (if 2 <? m then m - 3 else m + 9) + 2) / 5 + d - 1 in
  let doe := yoe * 365 + yoe / 4 - yoe / 100 + doy in
  era * 146097 + doe - 719468.

Definition parse_iso (s : string) : option Z :=
  '(y, s) ← read_fixed 4 s 0;
  s ← expect "-" s;
  '(mo, s) ← read_fixed 2 s 0;
  s ← expect "-" s;
  '(d, s) ← read_fixed 2 s 0;
  s ← expect "T" s;
  '(h, s) ← read_fixed 2 s 0;
  s ← expect ":" s;
  '(mi, s) ← read_fixed 2 s 0;
  s ← expect ":" s;
  '(sec, s) ← read_fixed 2 s 0;
  s ← expect "." s;
  '(ms, s) ← read_fixed 3 s 0;
  s ← expect "Z" s;
  match s with
  | EmptyString =>
      if (1 <=? mo) && (mo <=? 12) && (1 <=? d) && (d <=? days_in_month y mo)
         && (h <=? 23) && (mi <=? 59) && (sec <=? 59)
      then Some (days_from_civil y mo d * msPerDay
                 + h * msPerHour + mi * msPerMinute + sec * 1000 + ms)
      else None
  | String _ _ => None
  end.

Definition two_digits (n : Z) : string :=
  if n <? 10 then String "0" (string_of_Z n) else string_of_Z n.

Definition taipei_time_string (t : option Z) : string :=
  match t with
  | None => "Invalid Date"
  | Some ms =>
      let lt := ms + 8 * msPerHour in
      let h := (lt / msPerHour) mod 24 in
      let mi := (lt / msPerMinute) mod 60 in
      (if h <? 12 then "上午" else "下午")
        ++ two_digits (if h mod 12 =? 0 then 12 else h mod 12) ++ ":" ++ two_digits mi
  end.

Definition taipeiHost : Host :=
  {| Date_parse := parse_iso;
     LocalTZA := fun _ => 8 * msPerHour;
     toLocaleTimeString := taipei_time_string |}.

(** A gateway whose every call is rejected, and one that answers a fixed
    text. *)
Definition offlineGemini : Gemini :=
  {| generateContent := fun _ => Throw (RequestError "fetch failed") |}.

Definition answeringGemini (text : option string) : Gemini :=
  {| generateContent := fun _ => Normal text |}.

(** The answer the schema asks for, for a research task. *)
Definition researchAnswer : string :=
  "{" ++ quote "category" ++ ":" ++ quote "研發" ++ "}".

(** Tasks to evaluate on.  2024-01-03 is a Wednesday; 09:00 in Taipei is
    01:00 UTC. *)
Definition wednesday0900 : Z := 1704243600000.
Definition oneWeek : Z := 7 * msPerDay.

Definition standup : Task :=
  {| id := "3f2c9a60-5d1e-4a7b-9c7e-0a1b2c3d4e5f";
     content := "週會";
     remindTime := "2024-01-03T01:00:00.000Z";
     repeatDays := [1; 3];
     category := ADMIN;
     isActive := true;
     isCompleted := false;
     createdAt := 1704240000000 |}.

Definition report : Task :=
  {| id := "8b1d4e72-0c3a-4f5e-8d9a-6b7c8d9e0f1a";
     content := "Submit report";
     remindTime := "2024-01-03T01:00:00.000Z";
     repeatDays := [];
     category := RESEARCH;
     isActive := true;
     isCompleted := false;
     createdAt := 1704241800000 |}.

(** ** The history of the monitor *)

(** What every entry of the history is: a pass through the [shouldNotify]
    branch for a task of the collection at a tick of the run. *)
Definition sound_fire `{Host} (l : list Task) (ticks : list Tick) (f : Fire) : Prop :=
  In (fire_task f) l
  /\ (exists g, In (fire_now f, g) ticks
        /\ delivered f = if g then Some (showNotification (fire_task f)) else None)
  /\ isActive (fire_task f) = true
  /\ isCompleted (fire_task f) = false
  /\ exists taskTime,
       Date_parse (remindTime (fire_task f)) = Some taskTime
       /\ inWindow (fire_now f) taskTime = true
       /\ shouldNotify (fire_now f) taskTime (fire_task f) = true.

(** ** The check with a [Notification] constructor that may throw

    [new Notification(...)] stands in [checkTasks] without a [try]: where
    the platform refuses the constructor (Chrome on Android throws a
    [TypeError] and asks for a service worker instead), the exception
    leaves the [forEach] callback before [notifiedTasks.current.add], then
    [forEach] and [checkTasks]; the interval timer goes on and calls
    [checkTasks] again at the next tick. *)

(** What one call of [checkTasks] meets: the clock, whether
    ['Notification' in window && Notification.permission === 'granted']
    holds, and for which tasks [new Notification] returns when it is
    called. *)
Record Check : Type := mkCheck {
  check_now : Z;
  check_granted : bool;
  check_constructs : Task -> bool
}.

(** The body of [tasks.forEach], [None] when the constructor threw. *)
Definition checkTaskThrowing `{Host} (c : Check) (st : Monitor) (task : Task) : option Monitor :=
  let now := check_now c in
  if negb (isActive task) || isCompleted task then Some st
  else
    match Date_parse (remindTime task) with
    | None => Some st
    | Some taskTime =>
        if inWindow now taskTime then
          let key := notificationKey (id task) taskTime in
          if negb (bool_decide (key ∈ notified st)) then
            if shouldNotify now taskTime task then
              if check_granted c then
                if check_constructs c task then
                  Some {| notified := {[ key ]} ∪ notified st;
                          fired := (fired st ++
                            [ {| fire_now := now;
                                 fire_task := task;
                                 delivered := Some (showNotification task) |} ])%list |}
                else None
              else
                Some {| notified := {[ key ]} ∪ notified st;
                        fired := (fired st ++
                          [ {| fire_now := now;
                               fire_task := task;
                               delivered := None |} ])%list |}
            else Some st
          else Some st
        else Some st
    end.

(** [tasks.forEach]: the state [checkTasks] leaves behind and, when the
    constructor threw, the task it was called for; the tasks after that
    one are not looked at. *)
Fixpoint checkTasksThrowing `{Host} (c : Check) (tasks : list Task) (st : Monitor)
    : Monitor * option Task :=
  match tasks with
  | [] => (st, None)
  | task :: rest =>
      match checkTaskThrowing c st task with
      | Some st' => checkTasksThrowing c rest st'
      | None => (st, Some task)
      end
  end.

(** One tick of the interval timer, with the log of the exceptions that
    reached it: at which reading of the clock, and for which task. *)
Definition tickThrowing `{Host} (tasks : list Task)
    (acc : Monitor * list (Z * Task)) (c : Check) : Monitor * list (Z * Task) :=
  match checkTasksThrowing c tasks (fst acc) with
  | (st', None) => (st', snd acc)
  | (st', Some task) => (st', (snd acc ++ [(check_now c, task)])%list)
  end.

Definition runThrowing `{Host} (tasks : list Task) (checks : list Check)
    (acc : Monitor * list (Z * Task)) : Monitor * list (Z * Task) :=
  fold_left (tickThrowing tasks) checks acc.

(** A platform whose constructor always returns, and one that refuses
    it. *)
Definition constructing (now : Z) (granted : bool) : Check :=
  {| check_now := now; check_granted := granted; check_constructs := fun _ => true |}.


(** ** The application state and its handlers ([App.tsx]) *)

Record AppState : Type := mkAppState {
  tasks : list Task;
  summary : option string;
  isSummarizing : bool;
  isAdding : bool
}.

(** How the promise of an [async] handler settles.  [RangeError] is what
    [toISOString] throws on an invalid date. *)
Inductive settled : Type :=
| Fulfilled
| Rejected (e : error)
| RejectedRangeError.

(** [handleAddTask], with what it takes from its surroundings:
    [toISOString] on a valid time value, the answer of
    [crypto.randomUUID()] and the reading of [Date.now()].  [date] is the
    time value of the [Date] it is given, [None] for an invalid one.  The
    result is the state once the promise has settled, how it settled, and
    the requests sent. *)
Definition handleAddTask `{Gemini} (toISOString : Z -> string)
    (randomUUID : string) (Date_now : Z)
    (content0 : string) (date : option Z) (repeatDays0 : list Z)
    (st : AppState) (sent : list Request) : AppState * settled * list Request :=
  let st1 := {| tasks := tasks st; summary := summary st;
                isSummarizing := isSummarizing st; isAdding := true |} in
  match categorizeTask content0 sent with
  | (Throw e, sent') => (st1, Rejected e, sent')
  | (Normal category0, sent') =>
      match date with
      | None => (st1, RejectedRangeError, sent')
      | Some t =>
          let newTask :=
            {| id := randomUUID;
               content := content0;
               remindTime := toISOString t;
               repeatDays := repeatDays0;
               category := category0;
               isActive := true;
               isCompleted := false;
               createdAt := Date_now |} in
          ({| tasks := (tasks st1 ++ [newTask])%list; summary := summary st1;
              isSummarizing := isSummarizing st1; isAdding := false |},
           Fulfilled, sent')
      end
  end.

(** [generateSummary] *)
Definition generateSummary `{Host} `{Gemini}
    (st : AppState) (sent : list Request) : AppState * settled * list Request :=
  let st1 := {| tasks := tasks st; summary := summary st;
                isSummarizing := true; isAdding := isAdding st |} in
  let activeTasks := List.filter (fun t => negb (isCompleted t)) (tasks st1) in
  match getDailySummary activeTasks sent with
  | (Throw e, sent') => (st1, Rejected e, sent')
  | (Normal result, sent') =>
      ({| tasks := tasks st1; summary := Some result;
          isSummarizing := false; isAdding := isAdding st1 |},
       Fulfilled, sent')
  end.

(** The counter of the list header,
    [tasks.filter(t => !t.isCompleted).length]. *)
Definition pendingCount (l : list Task) : nat :=
  length (List.filter (fun t => negb (isCompleted t)) l).

(** ** The entry form ([components/TaskForm.tsx]) *)

(** [toggleDay]: the update of [repeatDays] behind a weekday check box. *)
Definition toggleDay (day : Z) (prev : list Z) : list Z :=
  if includes day prev then List.filter (fun d => negb (d =? day)) prev
  else (prev ++ [day])%list.

(** ** The list view ([components/TaskList.tsx], [types.ts]) *)

Definition DAYS_OF_WEEK : list (Z * string) :=
  [ (1, "週一"); (2, "週二"); (3, "週三"); (4, "週四");
    (5, "週五"); (6, "週六"); (0, "週日") ].

(** [DAYS_OF_WEEK.find(day => day.value === d)?.label] *)
Definition dayLabel (d : Z) : option string :=
  match List.find (fun day => fst day =? d) DAYS_OF_WEEK with
  | Some day => Some (snd day)
  | None => None
  end.

(** [.filter(Boolean)] on labels that may be [undefined]: what is left
    are the non-empty strings. *)
Fixpoint filterBoolean (l : list (option string)) : list string :=
  match l with
  | [] => []
  | Some (String c s) :: l' => String c s :: filterBoolean l'
  | _ :: l' => filterBoolean l'
  end.

Definition repeatLabelList (t : Task) : list string :=
  filterBoolean (map dayLabel (repeatDays t)).

Definition repeatLabels (t : Task) : string :=
  join ", " (repeatLabelList t).

(** [Array.prototype.sort] with a comparison function ([ECMA-262,
    23.1.3.30]): the sort is stable, and a comparison that answers [NaN]
    counts as [+0].  On a consistent comparison the result is the one
    stably sorted arrangement, which insertion from the right computes. *)
Fixpoint insertBy {A : Type} (cmp : A -> A -> Z) (x : A) (l : list A) : list A :=
  match l with
  | [] => [x]
  | y :: l' => if 0 <? cmp x y then y :: insertBy cmp x l' else x :: l
  end.

Fixpoint sortBy {A : Type} (cmp : A -> A -> Z) (l : list A) : list A :=
  match l with
  | [] => []
  | x :: l' => insertBy cmp x (sortBy cmp l')
  end.

Section ListView.

Context `{Host}.

(** The comparison function of [sortedTasks]: incomplete first, then by
    time.  The difference of two time values one of which is [NaN] is
    [NaN]. *)
Definition compareTasks (a b : Task) : Z :=
  if negb (Bool.eqb (isCompleted a) (isCompleted b)) then
    (if isCompleted a then 1 else -1)
  else
    match Date_parse (remindTime a), Date_parse (remindTime b) with
    | Some x, Some y => x - y
    | _, _ => 0
    end.

Definition sortedTasks (l : list Task) : list Task :=
  sortBy compareTasks l.

End ListView.

(** ** [toISOString] to evaluate with

    [YYYY-MM-DDTHH:mm:ss.sssZ] for the years 0000 to 9999. *)

Definition civil_from_days (z : Z) : Z * Z * Z :=
  let z' := z + 719468 in
  let era := z' / 146097 in
  let doe := z' - era * 146097 in
  let yoe := (doe - doe / 1460 + doe / 36524 - doe / 146096) / 365 in
  let y := yoe + era * 400 in
  let doy := doe - (365 * yoe + yoe / 4 - yoe / 100) in
  let mp := (5 * doy + 2) / 153 in
  let d := doy - (153 * mp + 2) / 5 + 1 in
  let m := if mp <? 10 then mp + 3 else mp - 9 in
  (if m <=? 2 then y + 1 else y, m, d).

Definition pad (width : nat) (n : Z) : string :=
  let s := string_of_Z n in
  String.concat EmptyString (repeat "0" (width - String.length s)) ++ s.

Definition iso_of_time (t : Z) : string :=
  let '(y, m, d) := civil_from_days (t / msPerDay) in
  let r := t mod msPerDay in
  pad 4 y ++ "-" ++ pad 2 m ++ "-" ++ pad 2 d ++ "T"
    ++ pad 2 (r / msPerHour) ++ ":" ++ pad 2 ((r / msPerMinute) mod 60) ++ ":"
    ++ pad 2 ((r / 1000) mod 60) ++ "." ++ pad 3 (r mod 1000) ++ "Z".

Definition emptyApp : AppState :=
  {| tasks := []; summary := None; isSummarizing := false; isAdding := false |}.

(** The stand-up entered with Tuesday 2024-01-02 as its date, and a
    record whose date does not parse. *)
Definition tuesdayStandup : Task :=
  {| id := "c0a8012e-7f3b-4d2a-9e10-5b6c7d8e9f00";
     content := "週會";
     remindTime := "2024-01-02T01:00:00.000Z";
     repeatDays := [1; 3];
     category := ADMIN;
     isActive := true;
     isCompleted := false;
     createdAt := 1704153600000 |}.

Definition undated : Task :=
  {| id := "5d9e2f41-3a6b-4c8d-b7e2-1f0a9b8c7d6e";
     content := "買咖啡";
     remindTime := "tomorrow";
     repeatDays := [];
     category := PERSONAL;
     isActive := true;
     isCompleted := false;
     createdAt := 1704153600000 |}.

(** * Strings as texts *)

Lemma append_cons (c : ascii) (s t : string) : String c s ++ t = String c (s ++ t).
Proof. reflexivity. Qed.

Lemma append_empty (t : string) : EmptyString ++ t = t.
Proof. reflexivity. Qed.

Lemma append_empty_r (s : string) : s ++ EmptyString = s.
Proof. induction s as [|c s IH]; [reflexivity|]. rewrite append_cons. now f_equal. Qed.

Lemma append_assoc (s t u : string) : (s ++ t) ++ u = s ++ (t ++ u).
Proof.
  induction s as [|c s IH]; [reflexivity|].
  rewrite !append_cons. now f_equal.
Qed.

Lemma length_append (s t : string) :
  String.length (s ++ t) = (String.length s + String.length t)%nat.
Proof.
  induction s as [|c s IH]; [reflexivity|].
  rewrite append_cons. cbn [String.length]. now rewrite IH.
Qed.

Create Rewrite HintDb text.
#[local] Hint Rewrite append_cons append_empty append_assoc : text.

(** * Integers as texts *)

Lemma digit_val_digit_char (d : N) :
  (d < 10)%N -> digit_val (digit_char d) = Some (Z.of_N d).
Proof.
  intros Hd.
  assert (Hcases : d = 0%N \/ d = 1%N \/ d = 2%N \/ d = 3%N \/ d = 4%N \/ d = 5%N
                   \/ d = 6%N \/ d = 7%N \/ d = 8%N \/ d = 9%N) by lia.
  repeat (destruct Hcases as [-> | Hcases]; [reflexivity|]). now subst.
Qed.

Lemma digits_go_append (fuel : nat) (n : N) (acc rest : string) :
  digits_go fuel n acc ++ rest = digits_go fuel n (acc ++ rest).
Proof.
  revert n acc. induction fuel as [|fuel IH]; intros n acc; [reflexivity|].
  cbn [digits_go]. destruct (n / 10 =? 0)%N; [reflexivity|].
  now rewrite IH, append_cons.
Qed.

Lemma div10_lt_pow2 (fuel : nat) (n : N) :
  (n < 2 ^ N.of_nat (S fuel))%N -> (n / 10 < 2 ^ N.of_nat fuel)%N.
Proof.
  rewrite Nat2N.inj_succ, N.pow_succ_r'. intros Hn.
  apply N.Div0.div_lt_upper_bound. lia.
Qed.

(** Reading back the digits that were written continues with what
    follows them, the number read so far shifted and extended. *)
Lemma read_digits_digits_go (fuel : nat) (n : N) (acc : string) (a k : Z) :
  (n < 2 ^ N.of_nat fuel)%N ->
  exists d, 0 <= d
    /\ read_digits (digits_go fuel n acc) a k =
       read_digits acc (a * 10 ^ d + Z.of_N n) (k + d).
Proof.
  revert n acc a k. induction fuel as [|fuel IH]; intros n acc a k Hn.
  - exists 0. split; [lia|]. cbn in Hn. assert (n = 0%N) as -> by lia.
    cbn [digits_go]. f_equal; cbn; lia.
  - cbn [digits_go]. destruct (n / 10 =? 0)%N eqn:Hq.
    + apply N.eqb_eq in Hq. exists 1. split; [lia|].
      assert (Hlt : (n < 10)%N).
      { destruct (N.lt_ge_cases n 10) as [Hlt|Hge]; [assumption|].
        assert (1 <= n / 10)%N by (apply N.div_le_lower_bound; lia). lia. }
      rewrite N.mod_small by assumption.
      cbn [read_digits]. rewrite digit_val_digit_char by assumption.
      f_equal; lia.
    + destruct (IH (n / 10)%N (String (digit_char (n mod 10)) acc) a k
                  (div10_lt_pow2 fuel n Hn)) as (d & Hd & Hread).
      exists (d + 1). split; [lia|]. rewrite Hread.
      cbn [read_digits].
      rewrite digit_val_digit_char by (apply N.mod_lt; lia).
      f_equal; [|lia].
      rewrite Z.pow_add_r, Z.pow_1_r by lia.
      rewrite N2Z.inj_div, N2Z.inj_mod.
      pose proof (Z.div_mod (Z.of_N n) 10). lia.
Qed.

(** A positive number is written with a leading digit other than zero. *)
Lemma digits_go_head (fuel : nat) (n : N) (acc : string) :
  (0 < n)%N -> (n < 2 ^ N.of_nat fuel)%N ->
  exists c s d,
    digits_go fuel n acc = String c s /\ digit_val c = Some d /\ d <> 0.
Proof.
  revert n acc. induction fuel as [|fuel IH]; intros n acc Hpos Hn.
  - cbn in Hn. lia.
  - cbn [digits_go]. destruct (n / 10 =? 0)%N eqn:Hq.
    + apply N.eqb_eq in Hq.
      assert (Hlt : (n < 10)%N).
      { destruct (N.lt_ge_cases n 10) as [Hlt|Hge]; [assumption|].
        assert (1 <= n / 10)%N by (apply N.div_le_lower_bound; lia). lia. }
      rewrite N.mod_small by assumption.
      exists (digit_char n), acc, (Z.of_N n).
      split; [reflexivity|]. split; [now apply digit_val_digit_char | lia].
    + apply N.eqb_neq in Hq.
      apply (IH (n / 10)%N); [now apply N.neq_0_lt_0 | now apply div10_lt_pow2].
Qed.

Lemma digits_of_N_fuel (n : N) :
  (0 < n)%N -> (n < 2 ^ N.of_nat (S (N.to_nat (N.log2 n))))%N.
Proof.
  intros Hpos. rewrite Nat2N.inj_succ, N2Nat.id.
  now apply N.log2_spec.
Qed.

Lemma digit_val_range (c : ascii) (d : Z) :
  digit_val c = Some d -> 0 <= d <= 9.
Proof.
  unfold digit_val.
  destruct ((48 <=? N_of_ascii c) && (N_of_ascii c <=? 57))%N eqn:Hr; [|discriminate].
  apply andb_true_iff in Hr as [Hlo Hhi].
  apply N.leb_le in Hlo, Hhi. intros [= <-]. lia.
Qed.

(** A digit is none of the characters that start another kind of
    value, nor white space, nor a closing bracket. *)
Lemma digit_not_structural (c : ascii) (d : Z) :
  digit_val c = Some d ->
  is_ws c = false
  /\ Ascii.eqb c "{" = false /\ Ascii.eqb c "[" = false
  /\ Ascii.eqb c dquote = false /\ Ascii.eqb c "t" = false
  /\ Ascii.eqb c "f" = false /\ Ascii.eqb c "n" = false
  /\ Ascii.eqb c "-" = false /\ Ascii.eqb c "]" = false
  /\ Ascii.eqb c "}" = false.
Proof.
  destruct c as [[] [] [] [] [] [] [] []]; cbn; intros Hd;
    try discriminate Hd; repeat split.
Qed.

Lemma delimited_ends_number (rest : string) :
  delimited rest = true ->
  (forall a k, read_digits rest a k = (a, k, rest))
  /\ (forall ip, read_fraction rest ip = Some (ip, 0, rest))
  /\ read_exponent rest = Some (0, rest)
  /\ skip_ws rest = rest.
Proof.
  destruct rest as [|c s]; [discriminate|]. unfold delimited.
  rewrite !orb_true_iff, !Ascii.eqb_eq. intros [[-> | ->] | ->]; repeat split.
Qed.

Lemma read_int_part (n : N) (rest : string) :
  (0 < n)%N -> delimited rest = true ->
  exists c s d k,
    digits_of_N n ++ rest = String c s
    /\ digit_val c = Some d /\ d <> 0
    /\ read_digits s d 1 = (Z.of_N n, k, rest).
Proof.
  intros Hpos Hrest. unfold digits_of_N.
  rewrite digits_go_append, append_empty.
  pose proof (digits_of_N_fuel n Hpos) as Hfuel.
  destruct (digits_go_head _ n rest Hpos Hfuel) as (c & s & d & Hhead & Hd & Hnz).
  destruct (read_digits_digits_go _ n rest 0 0 Hfuel) as (w & Hw & Hread).
  destruct (delimited_ends_number rest Hrest) as (Hstop & _).
  exists c, s, d, (0 + w). repeat split; try assumption.
  rewrite Hhead in Hread. cbn [read_digits] in Hread. rewrite Hd in Hread.
  change (0 * 10 + d) with d in Hread. change (0 + 1) with 1 in Hread.
  rewrite Hread, Hstop. now rewrite Z.mul_0_l, Z.add_0_l.
Qed.

Lemma normalise_integer (z : Z) : normalise z (0 - 0) = JNum z 0.
Proof.
  unfold normalise. destruct (z =? 0) eqn:Hz.
  - apply Z.eqb_eq in Hz. now subst.
  - cbn. now rewrite Z.mul_1_r.
Qed.

Lemma parse_number_int (z : Z) (rest : string) :
  delimited rest = true ->
  parse_number (string_of_Z z ++ rest) = Some (JNum z 0, rest).
Proof.
  intros Hrest.
  destruct (delimited_ends_number rest Hrest) as (_ & Hfrac & Hexp & _).
  destruct z as [|p|p]; cbn [string_of_Z].
  - rewrite append_cons, append_empty. unfold parse_number.
    change (Ascii.eqb "0" "-") with false. cbv iota.
    change (digit_val "0") with (Some 0). cbv iota.
    change (0 =? 0) with true. cbv iota.
    rewrite Hfrac, Hexp. reflexivity.
  - destruct (read_int_part (Npos p) rest eq_refl Hrest)
      as (c & s & d & k & -> & Hd & Hnz & Hread).
    destruct (digit_not_structural c d Hd) as (_ & _ & _ & _ & _ & _ & _ & Hminus & _).
    unfold parse_number. rewrite Hminus, Hd.
    apply Z.eqb_neq in Hnz. rewrite Hnz, Hread, Hfrac, Hexp.
    now rewrite normalise_integer.
  - rewrite append_cons.
    destruct (read_int_part (Npos p) rest eq_refl Hrest)
      as (c & s & d & k & -> & Hd & Hnz & Hread).
    unfold parse_number. cbn [Ascii.eqb Bool.eqb]. rewrite Hd.
    apply Z.eqb_neq in Hnz. rewrite Hnz, Hread, Hfrac, Hexp.
    now rewrite normalise_integer.
Qed.

Lemma string_of_Z_head (z : Z) (rest : string) :
  exists c s,
    string_of_Z z ++ rest = String c s
    /\ is_ws c = false
    /\ Ascii.eqb c "{" = false /\ Ascii.eqb c "[" = false
    /\ Ascii.eqb c dquote = false /\ Ascii.eqb c "t" = false
    /\ Ascii.eqb c "f" = false /\ Ascii.eqb c "n" = false
    /\ Ascii.eqb c "]" = false.
Proof.
  destruct z as [|p|p]; cbn [string_of_Z].
  - eexists _, _. rewrite append_cons. split; [reflexivity|]. repeat split.
  - unfold digits_of_N. rewrite digits_go_append.
    destruct (digits_go_head _ (Npos p) (EmptyString ++ rest) eq_refl
                (digits_of_N_fuel (Npos p) eq_refl)) as (c & s & d & -> & Hd & _).
    destruct (digit_not_structural c d Hd) as (? & ? & ? & ? & ? & ? & ? & ? & ? & ?).
    exists c, s. repeat split; assumption.
  - eexists _, _. rewrite append_cons. split; [reflexivity|]. repeat split.
Qed.

Lemma parse_value_int (fuel : nat) (z : Z) (rest : string) :
  delimited rest = true ->
  parse_value (S fuel) (string_of_Z z ++ rest) = Some (JNum z 0, rest).
Proof.
  intros Hrest. rewrite <- (parse_number_int z rest Hrest).
  destruct (string_of_Z_head z rest)
    as (c & s & -> & Hws & Hb & Hk & Hq & Ht & Hf & Hn & _).
  cbn [parse_value skip_ws]. rewrite Hws, Hb, Hk, Hq, Ht, Hf, Hn. reflexivity.
Qed.

Lemma string_of_Z_length (z : Z) : (1 <= String.length (string_of_Z z))%nat.
Proof.
  destruct (string_of_Z_head z EmptyString) as (c & s & Heq & _).
  rewrite append_empty_r in Heq. rewrite Heq. cbn. lia.
Qed.

(** * Properties of the reminder monitor *)

Section SchedulerFacts.

Context `{Host}.

Lemma inWindow_true now taskTime :
  inWindow now taskTime = true <-> taskTime - now <= 0 /\ taskTime - now > -60000.
Proof.
  unfold inWindow. rewrite andb_true_iff, Z.leb_le, Z.gtb_ltb, Z.ltb_lt. lia.
Qed.

Lemma inWindow_false now taskTime :
  inWindow now taskTime = false <-> 0 < taskTime - now \/ taskTime - now <= -60000.
Proof.
  unfold inWindow. rewrite andb_false_iff, Z.leb_gt, Z.gtb_ltb, Z.ltb_ge. lia.
Qed.

Lemma includes_In x l : includes x l = true <-> In x l.
Proof.
  unfold includes. rewrite existsb_exists. split.
  - intros (y & Hy & Heq). apply Z.eqb_eq in Heq. now subst.
  - intros Hin. exists x. split; [assumption | apply Z.eqb_refl].
Qed.

Lemma shouldNotify_oneTime now taskTime t :
  repeatDays t = [] -> shouldNotify now taskTime t = true.
Proof. intros Hrep. unfold shouldNotify. now rewrite Hrep. Qed.

Lemma shouldNotify_recurring now taskTime t :
  repeatDays t <> [] ->
  shouldNotify now taskTime t = true ->
  In (getDay now) (repeatDays t)
  /\ getHours taskTime = getHours now
  /\ getMinutes taskTime = getMinutes now.
Proof.
  intros Hrep. unfold shouldNotify.
  destruct (repeatDays t) as [|d ds] eqn:Hds; [congruence|].
  cbn [length]. rewrite Nat2Z.inj_succ.
  replace (Z.succ (Z.of_nat (length ds)) =? 0) with false
    by (symmetry; apply Z.eqb_neq; lia).
  replace (0 <? Z.succ (Z.of_nat (length ds))) with true
    by (symmetry; apply Z.ltb_lt; lia).
  rewrite andb_true_l.
  destruct (includes (getDay now) (d :: ds)) eqn:Hinc; [|discriminate].
  rewrite andb_true_iff, !Z.eqb_eq. intros [Hh Hm].
  apply includes_In in Hinc. auto.
Qed.

(** What one pass of the loop body does: nothing, or exactly the
    [shouldNotify] branch. *)
Lemma checkTask_step now g st t :
  checkTask now g st t = st
  \/ exists taskTime,
       isActive t = true /\ isCompleted t = false
       /\ Date_parse (remindTime t) = Some taskTime
       /\ inWindow now taskTime = true
       /\ (notificationKey (id t) taskTime ∉ notified st)
       /\ shouldNotify now taskTime t = true
       /\ checkTask now g st t =
            {| notified := {[ notificationKey (id t) taskTime ]} ∪ notified st;
               fired := (fired st ++
                 [ {| fire_now := now; fire_task := t;
                      delivered := if g then Some (showNotification t) else None |} ])%list |}.
Proof.
  unfold checkTask.
  destruct (isActive t) eqn:Ha, (isCompleted t) eqn:Hc; cbn [negb orb]; auto.
  destruct (Date_parse (remindTime t)) as [taskTime|] eqn:Hd; auto.
  destruct (inWindow now taskTime) eqn:Hw; auto.
  cbv zeta. case_bool_decide as Hk; cbn [negb]; auto.
  destruct (shouldNotify now taskTime t) eqn:Hs; auto.
  right. exists taskTime. repeat split; auto.
Qed.

Lemma checkTask_fires now g st t taskTime :
  isActive t = true -> isCompleted t = false ->
  Date_parse (remindTime t) = Some taskTime ->
  inWindow now taskTime = true ->
  notificationKey (id t) taskTime ∉ notified st ->
  shouldNotify now taskTime t = true ->
  checkTask now g st t =
    {| notified := {[ notificationKey (id t) taskTime ]} ∪ notified st;
       fired := (fired st ++
         [ {| fire_now := now; fire_task := t;
              delivered := if g then Some (showNotification t) else None |} ])%list |}.
Proof.
  intros Ha Hc Hd Hw Hk Hs. unfold checkTask.
  rewrite Ha, Hc, Hd, Hw. cbn [negb orb]. cbv zeta.
  rewrite bool_decide_eq_false_2 by assumption. cbn [negb].
  now rewrite Hs.
Qed.

Lemma checkTask_known now g st t taskTime :
  Date_parse (remindTime t) = Some taskTime ->
  notificationKey (id t) taskTime ∈ notified st ->
  checkTask now g st t = st.
Proof.
  intros Hd Hk.
  destruct (checkTask_step now g st t) as [Heq | (tt & _ & _ & Hd' & _ & Hk' & _)];
    [assumption|].
  rewrite Hd in Hd'. injection Hd' as <-. contradiction.
Qed.

Lemma checkTask_outside now g st t taskTime :
  Date_parse (remindTime t) = Some taskTime ->
  inWindow now taskTime = false ->
  checkTask now g st t = st.
Proof.
  intros Hd Hw.
  destruct (checkTask_step now g st t) as [Heq | (tt & _ & _ & Hd' & Hw' & _)];
    [assumption|].
  rewrite Hd in Hd'. injection Hd' as <-. congruence.
Qed.

(** The set of notified keys only grows. *)
Lemma checkTask_notified_mono now g st t :
  notified st ⊆ notified (checkTask now g st t).
Proof.
  destruct (checkTask_step now g st t) as [-> | (tt & _ & _ & _ & _ & _ & _ & ->)];
    cbn; set_solver.
Qed.

Lemma checkTasks_notified_mono now g tasks st :
  notified st ⊆ notified (checkTasks now g tasks st).
Proof.
  unfold checkTasks. revert st.
  induction tasks as [|u tasks IH]; intros st; cbn [fold_left]; [set_solver|].
  etransitivity; [apply (checkTask_notified_mono now g st u) | apply IH].
Qed.

Lemma run_notified_mono tasks ticks st :
  notified st ⊆ notified (run tasks ticks st).
Proof.
  unfold run. revert st.
  induction ticks as [|tk ticks IH]; intros st; cbn [fold_left]; [set_solver|].
  etransitivity; [apply (checkTasks_notified_mono (fst tk) (snd tk) tasks st) | apply IH].
Qed.

Lemma run_app tasks ticks1 ticks2 st :
  run tasks (ticks1 ++ ticks2) st = run tasks ticks2 (run tasks ticks1 st).
Proof. unfold run. apply fold_left_app. Qed.

Lemma firesOf_app t l1 l2 :
  firesOf t (l1 ++ l2) = (firesOf t l1 ++ firesOf t l2)%list.
Proof. unfold firesOf. apply List.filter_app. Qed.

(** The history is only ever extended, and by fires of the task at
    hand. *)
Lemma checkTask_firesOf_other now g st t u :
  u <> t -> firesOf t (fired (checkTask now g st u)) = firesOf t (fired st).
Proof.
  intros Hne.
  destruct (checkTask_step now g st u) as [-> | (tt & _ & _ & _ & _ & _ & _ & ->)];
    [reflexivity|].
  cbn [fired]. rewrite firesOf_app. cbn.
  rewrite bool_decide_eq_false_2 by assumption. apply app_nil_r.
Qed.

Lemma checkTasks_firesOf_silent now g tasks t st :
  (forall st', checkTask now g st' t = st') ->
  firesOf t (fired (checkTasks now g tasks st)) = firesOf t (fired st).
Proof.
  intros Hsilent. unfold checkTasks. revert st.
  induction tasks as [|u tasks IH]; intros st; cbn [fold_left]; [reflexivity|].
  rewrite IH. destruct (decide (u = t)) as [->|Hne].
  - now rewrite Hsilent.
  - now apply checkTask_firesOf_other.
Qed.

Lemma checkTasks_firesOf_known now g tasks t taskTime st :
  Date_parse (remindTime t) = Some taskTime ->
  notificationKey (id t) taskTime ∈ notified st ->
  firesOf t (fired (checkTasks now g tasks st)) = firesOf t (fired st).
Proof.
  intros Hd. unfold checkTasks. revert st.
  induction tasks as [|u tasks IH]; intros st Hk; cbn [fold_left]; [reflexivity|].
  rewrite IH by (apply checkTask_notified_mono; assumption).
  destruct (decide (u = t)) as [->|Hne].
  - now rewrite (checkTask_known now g st t taskTime).
  - now apply checkTask_firesOf_other.
Qed.

Lemma run_firesOf_known tasks ticks t taskTime st :
  Date_parse (remindTime t) = Some taskTime ->
  notificationKey (id t) taskTime ∈ notified st ->
  firesOf t (fired (run tasks ticks st)) = firesOf t (fired st).
Proof.
  intros Hd. unfold run. revert st.
  induction ticks as [|tk ticks IH]; intros st Hk; cbn [fold_left]; [reflexivity|].
  rewrite IH by (apply checkTasks_notified_mono; assumption).
  now apply checkTasks_firesOf_known with taskTime.
Qed.


(** A task that is due at a check has its key in the set afterwards,
    whatever the state before and whatever the permission. *)
Lemma checkTasks_records_due now g tasks t taskTime st :
  In t tasks ->
  isActive t = true -> isCompleted t = false ->
  Date_parse (remindTime t) = Some taskTime ->
  inWindow now taskTime = true ->
  shouldNotify now taskTime t = true ->
  notificationKey (id t) taskTime ∈ notified (checkTasks now g tasks st).
Proof.
  intros Hin Ha Hc Hd Hw Hs. unfold checkTasks. revert st.
  induction tasks as [|u tasks IH]; intros st; [contradiction|].
  cbn [fold_left]. destruct Hin as [->|Hin]; [|now apply IH].
  apply (checkTasks_notified_mono now g tasks).
  destruct (decide (notificationKey (id t) taskTime ∈ notified st)) as [Hk|Hk].
  - now apply checkTask_notified_mono.
  - rewrite (checkTask_fires now g st t taskTime) by assumption.
    cbn [notified]. set_solver.
Qed.


Lemma checkTask_invalid now g st t :
  Date_parse (remindTime t) = None -> checkTask now g st t = st.
Proof.
  intros Hd.
  destruct (checkTask_step now g st t) as [Heq | (tt & _ & _ & Hd' & _)];
    [assumption | congruence].
Qed.

End SchedulerFacts.

Section SchedulerClaims.

Context `{Host}.

(** While the task is outside its window and no other task shares its
    key, a check leaves the key out of the set and the task out of the
    history. *)
Lemma checkTasks_keeps_fresh now g tasks t taskTime st :
  Date_parse (remindTime t) = Some taskTime ->
  (forall u uTime, In u tasks -> Date_parse (remindTime u) = Some uTime ->
     notificationKey (id u) uTime = notificationKey (id t) taskTime -> u = t) ->
  inWindow now taskTime = false ->
  notificationKey (id t) taskTime ∉ notified st ->
  (notificationKey (id t) taskTime ∉ notified (checkTasks now g tasks st))
  /\ firesOf t (fired (checkTasks now g tasks st)) = firesOf t (fired st).
Proof.
  intros Hd Huniq Hw. unfold checkTasks. revert st.
  induction tasks as [|u tasks IH]; intros st Hk; cbn [fold_left]; [auto|].
  assert (Hu : (notificationKey (id t) taskTime ∉ notified (checkTask now g st u))
               /\ firesOf t (fired (checkTask now g st u)) = firesOf t (fired st)).
  { destruct (decide (u = t)) as [->|Hne].
    - now rewrite (checkTask_outside now g st t taskTime).
    - split; [|now apply checkTask_firesOf_other].
      destruct (checkTask_step now g st u)
        as [-> | (uTime & _ & _ & Hdu & _ & _ & _ & ->)]; [assumption|].
      cbn [notified]. intros Hin.
      apply elem_of_union in Hin as [Hin|Hin]; [|contradiction].
      apply elem_of_singleton in Hin. symmetry in Hin.
      apply Hne, (Huniq u uTime); [now left | assumption | assumption]. }
  destruct Hu as [Hk' Hf'].
  destruct (IH (fun v vTime Hv => Huniq v vTime (or_intror Hv))
               (checkTask now g st u) Hk') as [Hk'' Hf''].
  split; [assumption | congruence].
Qed.

Lemma run_keeps_fresh tasks ticks t taskTime st :
  Date_parse (remindTime t) = Some taskTime ->
  (forall u uTime, In u tasks -> Date_parse (remindTime u) = Some uTime ->
     notificationKey (id u) uTime = notificationKey (id t) taskTime -> u = t) ->
  Forall (fun tk : Tick => inWindow (fst tk) taskTime = false) ticks ->
  notificationKey (id t) taskTime ∉ notified st ->
  (notificationKey (id t) taskTime ∉ notified (run tasks ticks st))
  /\ firesOf t (fired (run tasks ticks st)) = firesOf t (fired st).
Proof.
  intros Hd Huniq Hout. unfold run. revert st.
  induction Hout as [|tk ticks Hw Hout IH]; intros st Hk; cbn [fold_left]; [auto|].
  destruct (checkTasks_keeps_fresh (fst tk) (snd tk) tasks t taskTime st Hd Huniq Hw Hk)
    as [Hk' Hf'].
  destruct (IH _ Hk') as [Hk'' Hf'']. split; [assumption | congruence].
Qed.

(** The check at which a due task is met with its key still absent adds
    exactly one fire for it. *)
Lemma checkTasks_first_fire now g tasks t taskTime st :
  In t tasks ->
  isActive t = true -> isCompleted t = false ->
  Date_parse (remindTime t) = Some taskTime ->
  (forall u uTime, In u tasks -> Date_parse (remindTime u) = Some uTime ->
     notificationKey (id u) uTime = notificationKey (id t) taskTime -> u = t) ->
  inWindow now taskTime = true ->
  shouldNotify now taskTime t = true ->
  notificationKey (id t) taskTime ∉ notified st ->
  firesOf t (fired (checkTasks now g tasks st)) =
    (firesOf t (fired st) ++
       [ {| fire_now := now; fire_task := t;
            delivered := if g then Some (showNotification t) else None |} ])%list.
Proof.
  intros Hin Ha Hc Hd Huniq Hw Hs. unfold checkTasks. revert st.
  induction tasks as [|u tasks IH]; intros st Hk; [contradiction|].
  cbn [fold_left]. destruct (decide (u = t)) as [->|Hne].
  - fold (checkTasks now g tasks (checkTask now g st t)).
    rewrite (checkTasks_firesOf_known now g tasks t taskTime) by
      (try assumption; rewrite (checkTask_fires now g st t taskTime) by assumption;
       cbn [notified]; apply elem_of_union_l, elem_of_singleton; reflexivity).
    rewrite (checkTask_fires now g st t taskTime) by assumption.
    cbn [fired]. rewrite firesOf_app. cbn.
    now rewrite bool_decide_eq_true_2 by reflexivity.
  - destruct Hin as [Heq|Hin]; [contradiction|].
    rewrite IH; try assumption.
    + now rewrite checkTask_firesOf_other.
    + intros v vTime Hv. apply Huniq. now right.
    + destruct (checkTask_step now g st u)
        as [-> | (uTime & _ & _ & Hdu & _ & _ & _ & ->)]; [assumption|].
      cbn [notified]. intros Hin'.
      apply elem_of_union in Hin' as [Hin'|Hin']; [|contradiction].
      apply elem_of_singleton in Hin'. symmetry in Hin'.
      apply Hne, (Huniq u uTime); [now left | assumption | assumption].
Qed.

(** From a state without the key, a check either leaves the task silent
    and the key out, or fires once for it and puts the key in. *)
Lemma checkTasks_fire_step now g tasks t taskTime st :
  Date_parse (remindTime t) = Some taskTime ->
  (forall u uTime, In u tasks -> Date_parse (remindTime u) = Some uTime ->
     notificationKey (id u) uTime = notificationKey (id t) taskTime -> u = t) ->
  notificationKey (id t) taskTime ∉ notified st ->
  ((notificationKey (id t) taskTime ∉ notified (checkTasks now g tasks st))
   /\ firesOf t (fired (checkTasks now g tasks st)) = firesOf t (fired st))
  \/ ((notificationKey (id t) taskTime ∈ notified (checkTasks now g tasks st))
      /\ firesOf t (fired (checkTasks now g tasks st)) =
           (firesOf t (fired st) ++
              [ {| fire_now := now; fire_task := t;
                   delivered := if g then Some (showNotification t) else None |} ])%list).
Proof.
  intros Hd. unfold checkTasks. revert st.
  induction tasks as [|u tasks IH]; intros st Huniq Hk; cbn [fold_left]; [now left|].
  assert (Huniq' : forall v vTime, In v tasks -> Date_parse (remindTime v) = Some vTime ->
            notificationKey (id v) vTime = notificationKey (id t) taskTime -> v = t)
    by (intros v vTime Hv; apply Huniq; now right).
  destruct (decide (u = t)) as [->|Hne].
  - destruct (checkTask_step now g st t)
      as [-> | (tt & _ & _ & Hd' & _ & _ & _ & Heq)]; [now apply IH|].
    rewrite Hd in Hd'. injection Hd' as <-. right.
    assert (Hin : notificationKey (id t) taskTime ∈ notified (checkTask now g st t))
      by (rewrite Heq; cbn [notified]; apply elem_of_union_l, elem_of_singleton;
          reflexivity).
    split.
    + now apply (checkTasks_notified_mono now g tasks).
    + fold (checkTasks now g tasks (checkTask now g st t)).
      rewrite (checkTasks_firesOf_known now g tasks t taskTime) by assumption.
      rewrite Heq. cbn [fired]. rewrite firesOf_app. cbn.
      now rewrite bool_decide_eq_true_2 by reflexivity.
  - rewrite <- (checkTask_firesOf_other now g st t u Hne).
    apply IH; [assumption|].
    destruct (checkTask_step now g st u)
      as [-> | (uTime & _ & _ & Hdu & _ & _ & _ & ->)]; [assumption|].
    cbn [notified]. intros Hin.
    apply elem_of_union in Hin as [Hin|Hin]; [|contradiction].
    apply elem_of_singleton in Hin. symmetry in Hin.
    apply Hne, (Huniq u uTime); [now left | assumption | assumption].
Qed.

Lemma run_fires_at_most_once tasks ticks t taskTime st :
  Date_parse (remindTime t) = Some taskTime ->
  (forall u uTime, In u tasks -> Date_parse (remindTime u) = Some uTime ->
     notificationKey (id u) uTime = notificationKey (id t) taskTime -> u = t) ->
  notificationKey (id t) taskTime ∉ notified st ->
  (length (firesOf t (fired (run tasks ticks st)))
   <= length (firesOf t (fired st)) + 1)%nat.
Proof.
  intros Hd Huniq. unfold run. revert st.
  induction ticks as [|tk ticks IH]; intros st Hk; cbn [fold_left]; [lia|].
  destruct (checkTasks_fire_step (fst tk) (snd tk) tasks t taskTime st Hd Huniq Hk)
    as [[Hk' Hf] | [Hk' Hf]].
  - rewrite <- Hf. now apply IH.
  - fold (run tasks ticks (checkTasks (fst tk) (snd tk) tasks st)).
    rewrite (run_firesOf_known tasks ticks t taskTime) by assumption.
    rewrite Hf, length_app. cbn. lia.
Qed.

(** Whatever its schedule, a task whose key is its own fires at most once
    in the life of the monitor. *)
Lemma task_fires_at_most_once tasks ticks t :
  (forall taskTime u uTime, Date_parse (remindTime t) = Some taskTime ->
     In u tasks -> Date_parse (remindTime u) = Some uTime ->
     notificationKey (id u) uTime = notificationKey (id t) taskTime -> u = t) ->
  (length (firesOf t (fired (run tasks ticks initialMonitor))) <= 1)%nat.
Proof.
  intros Huniq. destruct (Date_parse (remindTime t)) as [taskTime|] eqn:Hd.
  - apply (run_fires_at_most_once tasks ticks t taskTime initialMonitor Hd).
    + intros u uTime. now apply Huniq.
    + apply not_elem_of_empty.
  - assert (Hrun : forall st,
              firesOf t (fired (run tasks ticks st)) = firesOf t (fired st)).
    { unfold run. induction ticks as [|tk ticks IH]; intros st; cbn [fold_left];
        [reflexivity|].
      rewrite IH. apply checkTasks_firesOf_silent.
      intros st'. now apply checkTask_invalid. }
    rewrite Hrun. cbn. lia.
Qed.

(** C2.  An active, uncompleted one-time task ([repeatDays = []]) whose
    key no other task of the collection shares fires exactly once over
    any sequence of checks that reaches its window: at the first check
    with [remindTime - now <= 0] and [remindTime - now > -60000], and at
    no check before or after it. *)
Theorem one_time_task_fires_exactly_once
    (tasks : list Task) (t : Task) (taskTime : Z)
    (before after : list Tick) (now : Z) (g : bool) :
  In t tasks ->
  repeatDays t = [] ->
  isActive t = true -> isCompleted t = false ->
  Date_parse (remindTime t) = Some taskTime ->
  (forall u uTime, In u tasks -> Date_parse (remindTime u) = Some uTime ->
     notificationKey (id u) uTime = notificationKey (id t) taskTime -> u = t) ->
  Forall (fun tk : Tick => inWindow (fst tk) taskTime = false) before ->
  inWindow now taskTime = true ->
  firesOf t (fired (run tasks (before ++ (now, g) :: after) initialMonitor)) =
    [ {| fire_now := now; fire_task := t;
         delivered := if g then Some (showNotification t) else None |} ].
Proof.
  intros Hin Hrep Ha Hc Hd Huniq Hbefore Hw.
  rewrite run_app.
  destruct (run_keeps_fresh tasks before t taskTime initialMonitor Hd Huniq Hbefore)
    as [Hk Hf]; [cbn; set_solver|].
  change (run tasks ((now, g) :: after) (run tasks before initialMonitor))
    with (run tasks after (checkTasks now g tasks (run tasks before initialMonitor))).
  rewrite (run_firesOf_known tasks after t taskTime) by
    (try assumption; apply checkTasks_records_due;
     auto using shouldNotify_oneTime).
  rewrite (checkTasks_first_fire now g tasks t taskTime)
    by auto using shouldNotify_oneTime.
  now rewrite Hf.
Qed.

(** C3.  The loop body adds a fire for a task only if [remindTime - now]
    is at most 0 and above -60000 and, when [repeatDays] is not empty,
    today's weekday is in it and the stored hour and minute equal those
    of [now]; a one-time task that is active, uncompleted, inside the
    window and not yet notified fires without any further condition. *)
Theorem fire_requires_window_and_schedule
    (now : Z) (g : bool) (st : Monitor) (t : Task) :
  (fired (checkTask now g st t) <> fired st ->
   exists taskTime,
     Date_parse (remindTime t) = Some taskTime
     /\ taskTime - now <= 0 /\ taskTime - now > -60000
     /\ (repeatDays t <> [] ->
         In (getDay now) (repeatDays t)
         /\ getHours taskTime = getHours now
         /\ getMinutes taskTime = getMinutes now))
  /\ (forall taskTime,
        repeatDays t = [] ->
        isActive t = true -> isCompleted t = false ->
        Date_parse (remindTime t) = Some taskTime ->
        taskTime - now <= 0 -> taskTime - now > -60000 ->
        notificationKey (id t) taskTime ∉ notified st ->
        fired (checkTask now g st t) =
          (fired st ++
             [ {| fire_now := now; fire_task := t;
                  delivered := if g then Some (showNotification t) else None |} ])%list).
Proof.
  split.
  - intros Hchanged.
    destruct (checkTask_step now g st t)
      as [Heq | (taskTime & _ & _ & Hd & Hw & _ & Hs & _)];
      [now rewrite Heq in Hchanged|].
    exists taskTime. apply inWindow_true in Hw as [Hle Hgt].
    repeat split; try assumption;
      now apply (shouldNotify_recurring now taskTime t).
  - intros taskTime Hrep Ha Hc Hd Hle Hgt Hk.
    rewrite (checkTask_fires now g st t taskTime); auto.
    + now apply inWindow_true.
    + now apply shouldNotify_oneTime.
Qed.

(** C4.  A task with [isCompleted = true] or [isActive = false] is
    skipped by every check, whatever its [remindTime], its [repeatDays]
    and the clock: the loop body leaves the state as it is, and no run
    of checks adds a fire for the task. *)
Theorem completed_or_inactive_never_fires (t : Task) :
  isCompleted t = true \/ isActive t = false ->
  (forall now g st, checkTask now g st t = st)
  /\ (forall tasks ticks st,
        firesOf t (fired (run tasks ticks st)) = firesOf t (fired st)).
Proof.
  intros Hoff.
  assert (Hskip : forall now g st, checkTask now g st t = st).
  { intros now g st. unfold checkTask.
    destruct Hoff as [-> | ->]; [now rewrite orb_true_r | reflexivity]. }
  split; [exact Hskip|].
  intros tasks ticks. unfold run.
  induction ticks as [|tk ticks IH]; intros st; cbn [fold_left]; [reflexivity|].
  rewrite IH. apply checkTasks_firesOf_silent. intros st'. apply Hskip.
Qed.

End SchedulerClaims.

(** ** The constructor that throws *)

Section ThrowingConstructor.

Context `{Host}.

(** The body of the loop either does what [checkTask] does, or it is in
    the [shouldNotify] branch with the permission granted and the
    constructor throws. *)
Lemma checkTaskThrowing_spec (c : Check) (st : Monitor) (u : Task) :
  checkTaskThrowing c st u = Some (checkTask (check_now c) (check_granted c) st u)
  \/ (checkTaskThrowing c st u = None
      /\ check_granted c = true /\ check_constructs c u = false
      /\ exists uTime,
           isActive u = true /\ isCompleted u = false
           /\ Date_parse (remindTime u) = Some uTime
           /\ inWindow (check_now c) uTime = true
           /\ (notificationKey (id u) uTime ∉ notified st)
           /\ shouldNotify (check_now c) uTime u = true).
Proof.
  unfold checkTaskThrowing, checkTask.
  destruct (isActive u) eqn:Ha, (isCompleted u) eqn:Hc; cbn [negb orb]; auto.
  destruct (Date_parse (remindTime u)) as [uTime|] eqn:Hd; auto.
  cbv zeta. destruct (inWindow (check_now c) uTime) eqn:Hw; auto.
  case_bool_decide as Hk; cbn [negb]; auto.
  destruct (shouldNotify (check_now c) uTime u) eqn:Hs; auto.
  destruct (check_granted c) eqn:Hg; auto.
  destruct (check_constructs c u) eqn:Hn; auto.
  right. repeat split. exists uTime. repeat split; auto.
Qed.

Lemma checkTaskThrowing_returns (c : Check) (st : Monitor) (u : Task) :
  check_granted c = false \/ check_constructs c u = true ->
  checkTaskThrowing c st u = Some (checkTask (check_now c) (check_granted c) st u).
Proof.
  intros Hret.
  destruct (checkTaskThrowing_spec c st u) as [Heq | (_ & Hg & Hn & _)];
    [assumption|].
  destruct Hret; congruence.
Qed.

(** [forEach] runs through as [checkTasks] does, or it is left at a task
    after doing what [checkTasks] does on the tasks before it. *)
Lemma checkTasksThrowing_spec (c : Check) (tasks : list Task) (st : Monitor) :
  checkTasksThrowing c tasks st =
    (checkTasks (check_now c) (check_granted c) tasks st, None)
  \/ exists done u rest,
       tasks = (done ++ u :: rest)%list
       /\ checkTasksThrowing c tasks st =
            (checkTasks (check_now c) (check_granted c) done st, Some u)
       /\ checkTaskThrowing c
            (checkTasks (check_now c) (check_granted c) done st) u = None.
Proof.
  revert st. induction tasks as [|v tasks IH]; intros st; [now left|].
  cbn [checkTasksThrowing].
  destruct (checkTaskThrowing_spec c st v) as [Heq | (Heq & _)]; rewrite Heq.
  - destruct (IH (checkTask (check_now c) (check_granted c) st v))
      as [Hall | (done & u & rest & -> & Hres & Hthrow)].
    + left. exact Hall.
    + right. exists (v :: done), u, rest. repeat split; assumption.
  - right. exists [], v, tasks. repeat split. exact Heq.
Qed.

Lemma checkTasksThrowing_returns (c : Check) (tasks : list Task) (st : Monitor) :
  check_granted c = false \/ (forall u, In u tasks -> check_constructs c u = true) ->
  checkTasksThrowing c tasks st =
    (checkTasks (check_now c) (check_granted c) tasks st, None).
Proof.
  intros Hret.
  destruct (checkTasksThrowing_spec c tasks st)
    as [Hall | (done & u & rest & -> & _ & Hthrow)]; [assumption|].
  rewrite checkTaskThrowing_returns in Hthrow; [discriminate|].
  destruct Hret as [Hg | Hn]; [now left | right].
  apply Hn, in_or_app. right. now left.
Qed.

(** Where the constructor always returns the two models are one. *)
Lemma checkTasksThrowing_constructing now g (tasks : list Task) (st : Monitor) :
  checkTasksThrowing (constructing now g) tasks st = (checkTasks now g tasks st, None).
Proof.
  apply (checkTasksThrowing_returns (constructing now g)). now right.
Qed.

(** So a run on a platform whose constructor returns is a [run], and its
    log stays empty. *)
Lemma runThrowing_constructing (tasks : list Task) (ticks : list Tick)
    (st : Monitor) (log : list (Z * Task)) :
  runThrowing tasks (map (fun tk : Tick => constructing (fst tk) (snd tk)) ticks) (st, log) =
    (run tasks ticks st, log).
Proof.
  unfold runThrowing, run. revert st.
  induction ticks as [|tk ticks IH]; intros st; cbn [map fold_left]; [reflexivity|].
  rewrite <- IH. f_equal. unfold tickThrowing. cbn [fst snd].
  now rewrite checkTasksThrowing_constructing.
Qed.





End ThrowingConstructor.

(** ** Keys of distinct tasks

    The key is the id, a dash and the digits of the time value.  For times
    from 1970 on the digits hold no dash, so the id can be read off the
    key: a collection with unique ids has unique keys. *)

Lemma list_ascii_of_append (s t : string) :
  list_ascii_of_string (s ++ t) =
    (list_ascii_of_string s ++ list_ascii_of_string t)%list.
Proof.
  induction s as [|c s IH]; [reflexivity|].
  rewrite append_cons. cbn [list_ascii_of_string]. now rewrite IH.
Qed.

Lemma digits_go_chars (fuel : nat) (n : N) (acc : string) (c : ascii) :
  In c (list_ascii_of_string (digits_go fuel n acc)) ->
  (exists d, digit_val c = Some d) \/ In c (list_ascii_of_string acc).
Proof.
  revert n acc. induction fuel as [|fuel IH]; intros n acc Hin; [now right|].
  cbn [digits_go] in Hin.
  assert (Hstep : In c (list_ascii_of_string (String (digit_char (n mod 10)) acc)) ->
                  (exists d, digit_val c = Some d) \/ In c (list_ascii_of_string acc)).
  { intros [<-|Hacc]; [left | now right].
    eexists. apply digit_val_digit_char. apply N.mod_lt. lia. }
  destruct (n / 10 =? 0)%N; [now apply Hstep|].
  destruct (IH _ _ Hin) as [Hd|Hacc]; [now left | now apply Hstep].
Qed.

Lemma string_of_Z_no_dash (z : Z) :
  0 <= z -> ~ In "-"%char (list_ascii_of_string (string_of_Z z)).
Proof.
  intros Hz Hin. destruct z as [|p|p]; [| |lia].
  - destruct Hin as [Hin|[]]. discriminate Hin.
  - destruct (digits_go_chars _ _ _ _ Hin) as [(d & Hd)|[]]. discriminate Hd.
Qed.

Lemma dash_split_inj (i1 i2 d1 d2 : string) :
  ~ In "-"%char (list_ascii_of_string d1) ->
  ~ In "-"%char (list_ascii_of_string d2) ->
  i1 ++ String "-" d1 = i2 ++ String "-" d2 ->
  i1 = i2.
Proof.
  intros Hd1 Hd2. revert i2.
  induction i1 as [|c i1 IH]; intros [|c' i2];
    rewrite ?append_cons, ?append_empty; intros Heq.
  - reflexivity.
  - injection Heq as _ Heq. exfalso. apply Hd1. rewrite Heq, list_ascii_of_append.
    apply in_or_app. right. now left.
  - injection Heq as _ Heq. exfalso. apply Hd2. rewrite <- Heq, list_ascii_of_append.
    apply in_or_app. right. now left.
  - injection Heq as -> Heq. f_equal. now apply IH.
Qed.

Lemma notificationKey_id_inj (i1 i2 : string) (t1 t2 : Z) :
  0 <= t1 -> 0 <= t2 ->
  notificationKey i1 t1 = notificationKey i2 t2 -> i1 = i2.
Proof.
  intros H1 H2. unfold notificationKey. rewrite !append_cons, !append_empty.
  apply dash_split_inj; now apply string_of_Z_no_dash.
Qed.

Lemma unique_ids_unique_keys `{Host} (tasks : list Task) (t : Task) (taskTime : Z) :
  (forall u, In u tasks -> id u = id t -> u = t) ->
  (forall u uTime, In u tasks -> Date_parse (remindTime u) = Some uTime -> 0 <= uTime) ->
  0 <= taskTime ->
  forall u uTime, In u tasks -> Date_parse (remindTime u) = Some uTime ->
    notificationKey (id u) uTime = notificationKey (id t) taskTime -> u = t.
Proof.
  intros Hids Htimes Ht u uTime Hin Hd Hkey.
  apply Hids; [assumption|].
  apply (notificationKey_id_inj _ _ uTime taskTime); eauto.
Qed.

(** ** The monitor evaluated in Taipei *)

Lemma one_time_task_fires_exactly_once_witness :
  firesOf report
    (fired (@run taipeiHost [standup; report]
       ([(wednesday0900 - 1000, true)] ++
        (wednesday0900 + 2000, true) ::
        [(wednesday0900 + 3000, true); (wednesday0900 + 61000, true)])
       initialMonitor)) =
    [ {| fire_now := wednesday0900 + 2000; fire_task := report;
         delivered := Some (showNotification report) |} ].
Proof.
  apply (@one_time_task_fires_exactly_once taipeiHost
           [standup; report] report wednesday0900).
  - right; left; reflexivity.
  - reflexivity.
  - reflexivity.
  - reflexivity.
  - vm_compute; reflexivity.
  - apply (@unique_ids_unique_keys taipeiHost).
    + intros u [<-|[<-|[]]] Hid; [discriminate Hid | reflexivity].
    + intros u uTime [<-|[<-|[]]] Hd; vm_compute in Hd;
        injection Hd as <-; discriminate.
    + discriminate.
  - repeat constructor.
  - reflexivity.
Defined.

Lemma fire_requires_window_and_schedule_witness :
  (exists taskTime,
     @Date_parse taipeiHost (remindTime standup) = Some taskTime
     /\ taskTime - wednesday0900 <= 0 /\ taskTime - wednesday0900 > -60000
     /\ (repeatDays standup <> [] ->
         In (@getDay taipeiHost wednesday0900) (repeatDays standup)
         /\ @getHours taipeiHost taskTime = @getHours taipeiHost wednesday0900
         /\ @getMinutes taipeiHost taskTime = @getMinutes taipeiHost wednesday0900))
  /\ fired (@checkTask taipeiHost (wednesday0900 + 59999) false initialMonitor report) =
       [ {| fire_now := wednesday0900 + 59999; fire_task := report; delivered := None |} ].
Proof.
  split.
  - apply (proj1 (@fire_requires_window_and_schedule taipeiHost
                    wednesday0900 true initialMonitor standup)).
    vm_compute. discriminate.
  - apply (proj2 (@fire_requires_window_and_schedule taipeiHost
                    (wednesday0900 + 59999) false initialMonitor report) wednesday0900).
    + reflexivity.
    + reflexivity.
    + reflexivity.
    + vm_compute; reflexivity.
    + vm_compute; discriminate.
    + vm_compute; reflexivity.
    + apply not_elem_of_empty.
Defined.

Lemma completed_or_inactive_never_fires_witness :
  @checkTask taipeiHost wednesday0900 true initialMonitor (flipCompleted report) =
    initialMonitor.
Proof.
  apply (proj1 (@completed_or_inactive_never_fires taipeiHost (flipCompleted report)
                  (or_introl eq_refl))).
Defined.



Example parse_iso_wednesday :
  parse_iso "2024-01-03T01:00:00.000Z" = Some wednesday0900.
Proof. reflexivity. Qed.

Example wednesday0900_in_taipei :
  @getDay taipeiHost wednesday0900 = 3
  /\ @getHours taipeiHost wednesday0900 = 9
  /\ @getMinutes taipeiHost wednesday0900 = 0.
Proof. repeat split. Qed.

(** The day before, a Tuesday, at 09:00: nothing fires. *)
Example tuesday_0900_is_silent :
  fired (@run taipeiHost [standup; report]
           [(wednesday0900 - msPerDay, true)] initialMonitor) = [].
Proof. vm_compute. reflexivity. Qed.

(** Polled every second from 08:59:58, both tasks fire at 09:00:00 and at
    no later second of the window or after it. *)
Example polling_through_the_window :
  map fire_now
    (fired (@run taipeiHost [standup; report]
              (map (fun k => (wednesday0900 - 2000 + 1000 * Z.of_nat k, true)) (seq 0 70))
              initialMonitor)) =
    [wednesday0900; wednesday0900].
Proof. vm_compute. reflexivity. Qed.

(** C1.  What the code does with a recurring task.  The weekly stand-up,
    stored for Wednesday 2024-01-03 09:00 and repeating on Mondays and
    Wednesdays, is checked at that instant and again one week later: the
    second check falls on a later calendar day, on a weekday of
    [repeatDays], at the stored hour and minute, and yet the only fire is
    the first one, because the window is measured against the stored
    date. *)
Theorem recurring_task_silent_one_week_later :
  @localDay taipeiHost wednesday0900 < @localDay taipeiHost (wednesday0900 + oneWeek)
  /\ In (@getDay taipeiHost (wednesday0900 + oneWeek)) (repeatDays standup)
  /\ @getHours taipeiHost (wednesday0900 + oneWeek) = @getHours taipeiHost wednesday0900
  /\ @getMinutes taipeiHost (wednesday0900 + oneWeek) = @getMinutes taipeiHost wednesday0900
  /\ @Date_parse taipeiHost (remindTime standup) = Some wednesday0900
  /\ fired (@run taipeiHost [standup]
       [(wednesday0900, true); (wednesday0900 + oneWeek, true)] initialMonitor) =
     [ {| fire_now := wednesday0900; fire_task := standup;
          delivered := Some (showNotification standup) |} ].
Proof.
  repeat split; try (vm_compute; reflexivity).
  right; left; reflexivity.
Qed.

(** * Properties of the task store *)

Lemma flipCompleted_involutive (t : Task) : flipCompleted (flipCompleted t) = t.
Proof. destruct t. unfold flipCompleted. cbn. now rewrite negb_involutive. Qed.

Lemma toggleTask_twice (id0 : string) (tasks : list Task) :
  toggleTask id0 (toggleTask id0 tasks) = tasks.
Proof.
  unfold toggleTask. rewrite map_map.
  rewrite <- (map_id tasks) at 2. apply map_ext. intros t.
  destruct (String.eqb (id t) id0) eqn:Heq.
  - cbn [flipCompleted id]. rewrite Heq. apply flipCompleted_involutive.
  - now rewrite Heq.
Qed.

Lemma toggleTask_iter (id0 : string) (tasks : list Task) (n : nat) :
  Nat.iter n (toggleTask id0) tasks =
    if Nat.even n then tasks else toggleTask id0 tasks.
Proof.
  induction n as [n IH] using (well_founded_induction Wf_nat.lt_wf).
  destruct n as [|[|n]]; [reflexivity | reflexivity |].
  change (Nat.iter (S (S n)) (toggleTask id0) tasks)
    with (toggleTask id0 (toggleTask id0 (Nat.iter n (toggleTask id0) tasks))).
  change (Nat.even (S (S n))) with (Nat.even n).
  rewrite toggleTask_twice. apply IH. lia.
Qed.

Lemma even_of_mod2 (n m : nat) :
  (n mod 2 = m mod 2)%nat -> Nat.even n = Nat.even m.
Proof.
  intros Hmod.
  destruct (Nat.even n) eqn:Hn, (Nat.even m) eqn:Hm; try reflexivity.
  - apply Nat.even_spec in Hn. apply Nat.Div0.mod_divides in Hn as Hn'.
    assert (Hm' : Nat.odd m = true) by (now rewrite <- Nat.negb_even, Hm).
    apply Nat.odd_spec in Hm'. destruct Hn as [a ->], Hm' as [b ->].
    rewrite Nat.mul_comm, Nat.Div0.mod_mul in Hmod.
    rewrite Nat.add_comm, Nat.mul_comm, Nat.Div0.mod_add in Hmod. discriminate.
  - assert (Hn' : Nat.odd n = true) by (now rewrite <- Nat.negb_even, Hn).
    apply Nat.odd_spec in Hn'. apply Nat.even_spec in Hm.
    destruct Hn' as [a ->], Hm as [b ->].
    rewrite (Nat.mul_comm 2 b), Nat.Div0.mod_mul in Hmod.
    rewrite Nat.add_comm, Nat.mul_comm, Nat.Div0.mod_add in Hmod. discriminate.
Qed.

Lemma toggleTask_nth (id0 : string) (tasks : list Task) (i : nat) :
  nth_error (toggleTask id0 tasks) i =
    option_map (fun t => if String.eqb (id t) id0 then flipCompleted t else t)
               (nth_error tasks i).
Proof. unfold toggleTask. apply nth_error_map. Qed.

Lemma deleteTask_absent (id0 : string) (tasks : list Task) :
  ~ In id0 (map id tasks) -> deleteTask id0 tasks = tasks.
Proof.
  unfold deleteTask. induction tasks as [|t tasks IH]; intros Habsent; [reflexivity|].
  cbn [List.filter]. destruct (String.eqb (id t) id0) eqn:Heq.
  - apply String.eqb_eq in Heq. exfalso. apply Habsent. now left.
  - cbn [negb]. f_equal. apply IH. intros Hin. apply Habsent. now right.
Qed.

(** C8.  Toggling the same id [n] times gives a collection that depends
    only on [n mod 2]: two toggles restore the original, and a task with
    that id ends with [isCompleted] flipped exactly when [n] is odd.
    Deleting an id that no task of the collection has leaves the
    collection as it is. *)
Theorem toggle_parity_and_delete_absent (tasks : list Task) (id0 : string) :
  (forall n m : nat, (n mod 2 = m mod 2)%nat ->
     Nat.iter n (toggleTask id0) tasks = Nat.iter m (toggleTask id0) tasks)
  /\ toggleTask id0 (toggleTask id0 tasks) = tasks
  /\ (forall (n i : nat) (t : Task),
        nth_error tasks i = Some t -> id t = id0 ->
        option_map isCompleted (nth_error (Nat.iter n (toggleTask id0) tasks) i) =
          Some (xorb (isCompleted t) (Nat.odd n)))
  /\ (~ In id0 (map id tasks) -> deleteTask id0 tasks = tasks).
Proof.
  split; [|split; [|split]].
  - intros n m Hmod. rewrite !toggleTask_iter.
    now rewrite (even_of_mod2 n m Hmod).
  - apply toggleTask_twice.
  - intros n i t Hnth Hid. rewrite toggleTask_iter.
    rewrite <- Nat.negb_even. destruct (Nat.even n); cbn [negb].
    + rewrite Hnth. cbn. now rewrite xorb_false_r.
    + rewrite toggleTask_nth, Hnth. cbn [option_map].
      apply String.eqb_eq in Hid. rewrite Hid. cbn. now rewrite xorb_true_r.
  - apply deleteTask_absent.
Qed.

Lemma toggle_parity_and_delete_absent_witness :
  Nat.iter 5 (toggleTask (id report)) [standup; report] =
    Nat.iter 1 (toggleTask (id report)) [standup; report]
  /\ option_map isCompleted
       (nth_error (Nat.iter 3 (toggleTask (id report)) [standup; report]) 1) =
     Some (xorb (isCompleted report) (Nat.odd 3))
  /\ deleteTask "no-such-id" [standup; report] = [standup; report].
Proof.
  destruct (toggle_parity_and_delete_absent [standup; report] (id report))
    as (Hparity & _ & Hflag & _).
  destruct (toggle_parity_and_delete_absent [standup; report] "no-such-id")
    as (_ & _ & _ & Hdelete).
  split; [|split].
  - apply (Hparity 5%nat 1%nat). reflexivity.
  - apply (Hflag 3%nat 1%nat report); reflexivity.
  - apply Hdelete. vm_compute. intros [Hid|[Hid|[]]]; discriminate Hid.
Defined.

(** C10.  Toggling keeps the length of the collection and the order of
    its elements; a task whose id differs from the given one is left as it
    is, and a task with that id has [isCompleted] negated and every other
    field unchanged. *)
Theorem toggle_frame (tasks : list Task) (id0 : string) :
  length (toggleTask id0 tasks) = length tasks
  /\ map id (toggleTask id0 tasks) = map id tasks
  /\ (forall (i : nat) (t : Task),
        nth_error tasks i = Some t ->
        exists t',
          nth_error (toggleTask id0 tasks) i = Some t'
          /\ (id t <> id0 -> t' = t)
          /\ (id t = id0 -> isCompleted t' = negb (isCompleted t))
          /\ id t' = id t
          /\ content t' = content t
          /\ remindTime t' = remindTime t
          /\ repeatDays t' = repeatDays t
          /\ category t' = category t
          /\ isActive t' = isActive t
          /\ createdAt t' = createdAt t).
Proof.
  split; [|split].
  - unfold toggleTask. apply length_map.
  - unfold toggleTask. rewrite map_map. apply map_ext.
    intros t. now destruct (String.eqb (id t) id0).
  - intros i t Hnth. rewrite toggleTask_nth, Hnth. cbn [option_map].
    destruct (String.eqb (id t) id0) eqn:Heq.
    + exists (flipCompleted t). apply String.eqb_eq in Heq.
      repeat split; try reflexivity. intros Hne. contradiction.
    + exists t. apply String.eqb_neq in Heq.
      repeat split; try reflexivity. intros Hid. contradiction.
Qed.

Lemma toggle_frame_witness :
  exists t',
    nth_error (toggleTask (id report) [standup; report]) 1 = Some t'
    /\ (id report <> id report -> t' = report)
    /\ (id report = id report -> isCompleted t' = negb (isCompleted report))
    /\ id t' = id report
    /\ content t' = content report
    /\ remindTime t' = remindTime report
    /\ repeatDays t' = repeatDays report
    /\ category t' = category report
    /\ isActive t' = isActive report
    /\ createdAt t' = createdAt report.
Proof.
  apply (proj2 (proj2 (toggle_frame [standup; report] (id report))) 1%nat report).
  reflexivity.
Defined.

(** * Properties of the AI gateway *)

Lemma text_or_nonempty (text : option string) (fallback : string) :
  fallback <> EmptyString -> text_or text fallback <> EmptyString.
Proof.
  intros Hfb. unfold text_or. destruct text as [[|c s]|]; try assumption.
  discriminate.
Qed.

Section GatewayClaims.

Context `{Host} `{Gemini}.

(** What [categorizeTask] comes to, case by case. *)
Lemma categorizeTask_unfold (content0 : string) (sent : list Request) :
  categorizeTask content0 sent =
    (Normal
       match generateContent (categoryRequest content0) with
       | Throw _ => OTHER
       | Normal text =>
           match JSON_parse (text_or text "{}") with
           | Some (JObj l) => switchCategory (obj_get "category" l)
           | _ => OTHER
           end
       end,
     (sent ++ [categoryRequest content0])%list).
Proof.
  unfold categorizeTask, try_catch, bind, request, lift, ret, JSON_parse_or_throw.
  destruct (generateContent (categoryRequest content0)) as [text|e]; [|reflexivity].
  destruct (JSON_parse (text_or text "{}")) as [v|]; [|reflexivity].
  destruct v; reflexivity.
Qed.

Lemma switchCategory_inv (categoryStr : option value) (c : TaskCategory) :
  switchCategory categoryStr = c -> c <> OTHER ->
  categoryStr = Some (JStr (category_string c)).
Proof.
  unfold switchCategory. intros Hc Hother.
  destruct categoryStr as [[| | |s| |]|]; try congruence.
  destruct (String.eqb s "研發") eqn:H1;
    [apply String.eqb_eq in H1; subst; reflexivity|].
  destruct (String.eqb s "行政") eqn:H2;
    [apply String.eqb_eq in H2; subst; reflexivity|].
  destruct (String.eqb s "個人") eqn:H3;
    [apply String.eqb_eq in H3; subst; reflexivity|].
  congruence.
Qed.

(** C6.  [categorizeTask] never throws: it returns one of the four
    values of [TaskCategory], and that value is [OTHER] when the request
    is rejected and when the answer is not a JSON text; any other value
    comes from an answer that parses to an object whose [category] is
    that value's own string. *)
Theorem categorizeTask_always_a_category (content0 : string) (sent : list Request) :
  (exists c : TaskCategory,
     categorizeTask content0 sent = (Normal c, (sent ++ [categoryRequest content0])%list)
     /\ In c [RESEARCH; ADMIN; PERSONAL; OTHER])
  /\ (forall e, generateContent (categoryRequest content0) = Throw e ->
        fst (categorizeTask content0 sent) = Normal OTHER)
  /\ (forall text, generateContent (categoryRequest content0) = Normal text ->
        JSON_parse (text_or text "{}") = None ->
        fst (categorizeTask content0 sent) = Normal OTHER)
  /\ (forall c, fst (categorizeTask content0 sent) = Normal c -> c <> OTHER ->
        exists text l,
          generateContent (categoryRequest content0) = Normal text
          /\ JSON_parse (text_or text "{}") = Some (JObj l)
          /\ obj_get "category" l = Some (JStr (category_string c))).
Proof.
  rewrite categorizeTask_unfold. split; [|split; [|split]].
  - eexists. split; [reflexivity|].
    match goal with |- In ?c _ => destruct c end; cbn; auto.
  - intros e ->. reflexivity.
  - intros text -> ->. reflexivity.
  - intros c Hc Hother. cbn [fst] in Hc. injection Hc as Hc.
    destruct (generateContent (categoryRequest content0)) as [text|e]; [|congruence].
    destruct (JSON_parse (text_or text "{}")) as [[| | | | |l]|] eqn:Hparse;
      try congruence.
    exists text, l. split; [reflexivity|]. split; [assumption|].
    now apply switchCategory_inv.
Qed.

(** C7.  On the empty list [getDailySummary] returns the empty-state
    message and sends no request.  On a non-empty list it never throws
    and returns a non-empty string, which is the connection-failure
    message when the request is rejected. *)
Theorem getDailySummary_always_a_message :
  (forall sent,
     getDailySummary [] sent = (Normal "目前沒有待辦事項。享受這美好的一天吧！", sent))
  /\ (forall tasks sent, tasks <> [] ->
        exists s : string,
          getDailySummary tasks sent = (Normal s, (sent ++ [summaryRequest tasks])%list)
          /\ s <> EmptyString
          /\ (forall e, generateContent (summaryRequest tasks) = Throw e ->
                s = "連線發生錯誤，無法生成摘要。")).
Proof.
  split; [reflexivity|].
  intros tasks sent Hne. destruct tasks as [|t tasks]; [congruence|].
  unfold getDailySummary, try_catch, bind, request, ret. cbn [length Nat.eqb].
  destruct (generateContent (summaryRequest (t :: tasks))) as [text|e].
  - eexists. split; [reflexivity|]. split; [|discriminate].
    apply text_or_nonempty. discriminate.
  - eexists. split; [reflexivity|]. split; [discriminate | reflexivity].
Qed.

End GatewayClaims.

Lemma categorizeTask_always_a_category_witness :
  fst (@categorizeTask offlineGemini "寫週報" []) = Normal OTHER
  /\ fst (@categorizeTask (answeringGemini (Some "{category: 研發")) "寫週報" []) = Normal OTHER
  /\ exists text l,
       @generateContent (answeringGemini (Some researchAnswer)) (categoryRequest "寫週報")
         = Normal text
       /\ JSON_parse (text_or text "{}") = Some (JObj l)
       /\ obj_get "category" l = Some (JStr (category_string RESEARCH)).
Proof.
  split; [|split].
  - apply (proj1 (proj2 (@categorizeTask_always_a_category offlineGemini "寫週報" []))
             (RequestError "fetch failed")).
    reflexivity.
  - apply (proj1 (proj2 (proj2 (@categorizeTask_always_a_category
                                  (answeringGemini (Some "{category: 研發")) "寫週報" [])))
             (Some "{category: 研發")).
    + reflexivity.
    + vm_compute; reflexivity.
  - apply (proj2 (proj2 (proj2 (@categorizeTask_always_a_category
                                  (answeringGemini (Some researchAnswer)) "寫週報" [])))
             RESEARCH).
    + vm_compute; reflexivity.
    + discriminate.
Defined.

Example categorizeTask_research :
  fst (@categorizeTask (answeringGemini (Some researchAnswer)) "3D DRAM 研發進度會議" [])
    = Normal RESEARCH.
Proof. vm_compute. reflexivity. Qed.

Example categorizeTask_null_answer :
  fst (@categorizeTask (answeringGemini (Some "null")) "寫週報" []) = Normal OTHER.
Proof. vm_compute. reflexivity. Qed.

Example categorizeTask_no_text :
  fst (@categorizeTask (answeringGemini None) "寫週報" []) = Normal OTHER.
Proof. vm_compute. reflexivity. Qed.

Example getDailySummary_answer :
  fst (@getDailySummary taipeiHost (answeringGemini (Some "今日重點：週會。加油！"))
         [standup; report] []) = Normal "今日重點：週會。加油！".
Proof. vm_compute. reflexivity. Qed.

Example getDailySummary_empty_answer :
  fst (@getDailySummary taipeiHost (answeringGemini (Some EmptyString))
         [standup; report] []) = Normal "無法生成摘要。".
Proof. vm_compute. reflexivity. Qed.

Lemma getDailySummary_always_a_message_witness :
  exists s : string,
    @getDailySummary taipeiHost offlineGemini [standup; report] [] =
      (Normal s, [@summaryRequest taipeiHost [standup; report]])
    /\ s <> EmptyString
    /\ (forall e,
          @generateContent offlineGemini (@summaryRequest taipeiHost [standup; report]) = Throw e ->
          s = "連線發生錯誤，無法生成摘要。").
Proof.
  apply (proj2 (@getDailySummary_always_a_message taipeiHost offlineGemini)
           [standup; report] []).
  discriminate.
Defined.

(** * The persisted form *)

(** ** String literals *)

(** The escape of one character reads back as one piece, which joins
    into that character. *)
Lemma escape_char_read (c : ascii) :
  exists p : piece,
    (forall tail,
       read_string (escape_char c ++ tail) =
         match read_string tail with
         | Some (ps, rest) => Some (p :: ps, rest)
         | None => None
         end)
    /\ (forall ps, assemble (p :: ps) = String c (assemble ps)).
Proof.
  destruct c as [[] [] [] [] [] [] [] []];
    (eexists; split;
     [ intros tail; reflexivity
     | intros ps; try reflexivity; destruct ps as [|[c'|lo] ps']; reflexivity ]).
Qed.

Lemma read_string_escape (s rest : string) :
  exists ps,
    read_string (escape s ++ String dquote rest) = Some (ps, rest)
    /\ assemble ps = s.
Proof.
  induction s as [|c s (ps & Hread & Hjoin)].
  - exists []. split; reflexivity.
  - destruct (escape_char_read c) as (p & Hp & Hpjoin).
    exists (p :: ps). cbn [escape]. rewrite append_assoc, Hp, Hread.
    split; [reflexivity|]. now rewrite Hpjoin, Hjoin.
Qed.

Lemma parse_string_escape (s rest : string) :
  parse_string (escape s ++ String dquote rest) = Some (s, rest).
Proof.
  unfold parse_string.
  destruct (read_string_escape s rest) as (ps & -> & ->). reflexivity.
Qed.

Lemma quote_append (s rest : string) :
  quote s ++ rest = String dquote (escape s ++ String dquote rest).
Proof.
  unfold quote. now rewrite append_cons, append_assoc, append_cons, append_empty.
Qed.

Lemma parse_value_dquote (fuel : nat) (x : string) :
  parse_value (S fuel) (String dquote x) =
    match parse_string x with
    | Some (str, rest) => Some (JStr str, rest)
    | None => None
    end.
Proof. reflexivity. Qed.

Lemma parse_value_string (fuel : nat) (s rest : string) :
  parse_value (S fuel) (quote s ++ rest) = Some (JStr s, rest).
Proof.
  now rewrite quote_append, parse_value_dquote, parse_string_escape.
Qed.

Lemma parse_value_bool (fuel : nat) (b : bool) (rest : string) :
  parse_value (S fuel) (stringify_bool b ++ rest) = Some (JBool b, rest).
Proof. destruct b; reflexivity. Qed.

(** ** Arrays and objects *)

Lemma parse_elements_eq (fuel : nat) (s : string) (acc : list value) :
  parse_elements (S fuel) s acc =
    match parse_value fuel s with
    | Some (v, s1) =>
        match skip_ws s1 with
        | String c s2 =>
            if Ascii.eqb c "," then parse_elements fuel s2 (acc ++ [v])%list
            else if Ascii.eqb c "]" then Some (JArr (acc ++ [v])%list, s2)
            else None
        | EmptyString => None
        end
    | None => None
    end.
Proof. reflexivity. Qed.

Lemma parse_value_bracket (fuel : nat) (s1 : string) :
  parse_value (S fuel) (String "[" s1) =
    match skip_ws s1 with
    | String c2 s2 =>
        if Ascii.eqb c2 "]" then Some (JArr [], s2) else parse_elements fuel s1 []
    | EmptyString => None
    end.
Proof. reflexivity. Qed.

Lemma parse_value_brace (fuel : nat) (s1 : string) :
  parse_value (S fuel) (String "{" s1) =
    match skip_ws s1 with
    | String c2 s2 =>
        if Ascii.eqb c2 "}" then Some (JObj [], s2) else parse_members fuel s1 []
    | EmptyString => None
    end.
Proof. reflexivity. Qed.

Section Elements.

Context {A : Type} (show : A -> string) (val : A -> value).

(** The elements of a non-empty array, up to its closing bracket. *)
Lemma parse_elements_join (l : list A) :
  (forall a, In a l -> forall fuel rest,
     (String.length (show a) < fuel)%nat -> delimited rest = true ->
     parse_value fuel (show a ++ rest) = Some (val a, rest)) ->
  (forall a, In a l -> (1 <= String.length (show a))%nat) ->
  l <> [] ->
  forall fuel acc rest,
    (String.length (join "," (map show l)) + 1 < fuel)%nat ->
    parse_elements fuel (join "," (map show l) ++ String "]" rest) acc =
      Some (JArr (acc ++ map val l)%list, rest).
Proof.
  induction l as [|a l IH]; intros Hparse Hlen Hne fuel acc rest Hfuel;
    [congruence|].
  destruct fuel as [|fuel]; [lia|]. rewrite parse_elements_eq.
  destruct l as [|b l].
  - cbn [map join] in *.
    rewrite (Hparse a (or_introl eq_refl)) by (reflexivity || lia).
    reflexivity.
  - change (join "," (map show (a :: b :: l)))
      with (show a ++ "," ++ join "," (map show (b :: l))) in *.
    rewrite !length_append in Hfuel. cbn [String.length] in Hfuel.
    pose proof (Hlen a (or_introl eq_refl)) as Ha.
    rewrite !append_assoc, append_cons, append_empty.
    rewrite (Hparse a (or_introl eq_refl)) by (reflexivity || lia).
    cbn [skip_ws is_ws Ascii.eqb Bool.eqb orb]. cbv iota.
    rewrite IH; try (intros; auto with datatypes; fail); try congruence; try lia.
    now rewrite <- app_assoc.
Qed.

Lemma parse_value_array (l : list A) (fuel : nat) (rest : string) :
  (forall a, In a l -> forall fuel rest,
     (String.length (show a) < fuel)%nat -> delimited rest = true ->
     parse_value fuel (show a ++ rest) = Some (val a, rest)) ->
  (forall a, In a l ->
     exists c s, show a = String c s /\ is_ws c = false /\ Ascii.eqb c "]" = false) ->
  (String.length ("[" ++ join "," (map show l) ++ "]") < fuel)%nat ->
  parse_value fuel (("[" ++ join "," (map show l) ++ "]") ++ rest) =
    Some (JArr (map val l), rest).
Proof.
  intros Hparse Hhead Hfuel.
  rewrite append_cons, append_empty in Hfuel. cbn [String.length] in Hfuel.
  rewrite length_append in Hfuel. cbn [String.length] in Hfuel.
  rewrite append_cons, append_empty, append_cons, append_assoc, append_cons, append_empty.
  destruct fuel as [|fuel]; [lia|]. rewrite parse_value_bracket.
  destruct l as [|a l]; [reflexivity|].
  assert (Hlen : forall a', In a' (a :: l) -> (1 <= String.length (show a'))%nat).
  { intros a' Hin. destruct (Hhead a' Hin) as (c & s & -> & _). cbn. lia. }
  destruct (Hhead a (or_introl eq_refl)) as (c & s & Hshow & Hws & Hc).
  assert (Hstart : exists s', join "," (map show (a :: l)) ++ String "]" rest = String c s').
  { destruct l as [|b l]; cbn [map join]; rewrite Hshow; eexists;
      rewrite ?append_assoc, append_cons; reflexivity. }
  destruct Hstart as (s' & Hstart).
  rewrite Hstart at 1. cbn [skip_ws]. rewrite Hws, Hc.
  rewrite parse_elements_join; try assumption; try congruence; try lia.
  reflexivity.
Qed.

End Elements.

Lemma parse_value_numbers (l : list Z) (fuel : nat) (rest : string) :
  (String.length (stringify_numbers l) < fuel)%nat ->
  parse_value fuel (stringify_numbers l ++ rest) =
    Some (JArr (map (fun d => JNum d 0) l), rest).
Proof.
  intros Hfuel. unfold stringify_numbers in *.
  apply (parse_value_array string_of_Z (fun d => JNum d 0)); [| |assumption].
  - intros z _ fuel' rest' Hfuel' Hrest'.
    destruct fuel' as [|fuel']; [lia|]. now apply parse_value_int.
  - intros z _. destruct (string_of_Z_head z EmptyString)
      as (c & s & Heq & Hws & _ & _ & _ & _ & _ & _ & Hc).
    rewrite append_empty_r in Heq. eauto.
Qed.

Lemma parse_members_dquote (fuel : nat) (x : string) (acc : list (string * value)) :
  parse_members (S fuel) (String dquote x) acc =
    match parse_string x with
    | Some (k, s2) =>
        match skip_ws s2 with
        | String c s3 =>
            if Ascii.eqb c ":" then
              match parse_value fuel s3 with
              | Some (v, s4) =>
                  match skip_ws s4 with
                  | String d s5 =>
                      if Ascii.eqb d "," then parse_members fuel s5 (obj_set k v acc)
                      else if Ascii.eqb d "}" then Some (JObj (obj_set k v acc), s5)
                      else None
                  | EmptyString => None
                  end
              | None => None
              end
            else None
        | EmptyString => None
        end
    | None => None
    end.
Proof. reflexivity. Qed.

(** One property followed by a comma hands over to the next one. *)
Lemma parse_members_field (fuel : nat) (key text : string) (v : value)
    (more : string) (acc : list (string * value)) :
  parse_value fuel (text ++ String "," more) = Some (v, String "," more) ->
  parse_members (S fuel) (quote key ++ String ":" (text ++ String "," more)) acc =
    parse_members fuel more (obj_set key v acc).
Proof.
  intros Hvalue.
  rewrite quote_append, parse_members_dquote, parse_string_escape.
  cbn [skip_ws is_ws Ascii.eqb Bool.eqb orb]. cbv iota.
  rewrite Hvalue. reflexivity.
Qed.

(** The last property closes the object. *)
Lemma parse_members_last (fuel : nat) (key text : string) (v : value)
    (rest : string) (acc : list (string * value)) :
  parse_value fuel (text ++ String "}" rest) = Some (v, String "}" rest) ->
  parse_members (S fuel) (quote key ++ String ":" (text ++ String "}" rest)) acc =
    Some (JObj (obj_set key v acc), rest).
Proof.
  intros Hvalue.
  rewrite quote_append, parse_members_dquote, parse_string_escape.
  cbn [skip_ws is_ws Ascii.eqb Bool.eqb orb]. cbv iota.
  rewrite Hvalue. reflexivity.
Qed.

Lemma stringify_task_length (t : Task) :
  (String.length (stringify_numbers (repeatDays t)) + 12
   <= String.length (stringify_task t))%nat.
Proof.
  unfold stringify_task. rewrite !length_append. cbn [String.length]. lia.
Qed.

Lemma parse_value_task (t : Task) (fuel : nat) (rest : string) :
  (String.length (stringify_task t) < fuel)%nat ->
  parse_value fuel (stringify_task t ++ rest) = Some (value_of_task t, rest).
Proof.
  intros Hfuel. pose proof (stringify_task_length t) as Hlen.
  replace fuel with (S (S (S (S (S (S (S (S (S (S (fuel - 10))))))))))) by lia.
  unfold stringify_task. autorewrite with text.
  rewrite parse_value_brace, quote_append. cbn [skip_ws is_ws dquote Ascii.eqb Bool.eqb orb].
  cbv iota. rewrite <- quote_append.
  rewrite (parse_members_field _ "id" _ (JStr (id t)))
    by apply parse_value_string.
  rewrite (parse_members_field _ "content" _ (JStr (content t)))
    by apply parse_value_string.
  rewrite (parse_members_field _ "remindTime" _ (JStr (remindTime t)))
    by apply parse_value_string.
  rewrite (parse_members_field _ "repeatDays" _
             (JArr (map (fun d => JNum d 0) (repeatDays t))))
    by (apply parse_value_numbers; lia).
  rewrite (parse_members_field _ "category" _ (JStr (category_string (category t))))
    by apply parse_value_string.
  rewrite (parse_members_field _ "isActive" _ (JBool (isActive t)))
    by apply parse_value_bool.
  rewrite (parse_members_field _ "isCompleted" _ (JBool (isCompleted t)))
    by apply parse_value_bool.
  rewrite (parse_members_last _ "createdAt" _ (JNum (createdAt t) 0))
    by (apply parse_value_int; reflexivity).
  reflexivity.
Qed.

Lemma JSON_parse_stringify (tasks : list Task) :
  JSON_parse (JSON_stringify tasks) = Some (value_of_tasks tasks).
Proof.
  unfold JSON_parse, JSON_stringify, value_of_tasks.
  rewrite <- (append_empty_r ("[" ++ join "," (map stringify_task tasks) ++ "]")) at 2.
  rewrite (parse_value_array stringify_task value_of_task).
  - reflexivity.
  - intros t _ fuel rest Hfuel _. now apply parse_value_task.
  - intros t _. unfold stringify_task. rewrite append_cons, append_empty.
    eexists _, _. repeat split.
  - lia.
Qed.

Lemma category_of_string_category (c : TaskCategory) :
  category_of_string (category_string c) = Some c.
Proof. destruct c; reflexivity. Qed.

Lemma as_integers_map (l : list Z) :
  all_some (map as_integer (map (fun d => JNum d 0) l)) = Some l.
Proof.
  induction l as [|d l IH]; [reflexivity|].
  cbn [map all_some as_integer]. now rewrite IH.
Qed.

Lemma task_of_value_of_task (t : Task) : task_of_value (value_of_task t) = Some t.
Proof.
  unfold task_of_value, value_of_task, field.
  cbn [obj_get String.eqb Ascii.eqb Bool.eqb as_string as_bool as_integer as_integers].
  rewrite as_integers_map, category_of_string_category. now destruct t.
Qed.

Lemma tasks_of_value_of_tasks (tasks : list Task) :
  tasks_of_value (value_of_tasks tasks) = Some tasks.
Proof.
  unfold tasks_of_value, value_of_tasks.
  induction tasks as [|t tasks IH]; [reflexivity|].
  cbn [map all_some]. now rewrite task_of_value_of_task, IH.
Qed.

(** C9.  Serialising a task collection to its persisted JSON text and
    parsing that text gives back the same collection: [JSON.parse]
    answers the array of the same objects, whose fields read back as the
    same tasks, in the same order, and the load effect sets exactly the
    collection the save effect wrote. *)
Theorem persisted_tasks_round_trip (tasks : list Task) :
  JSON_parse (JSON_stringify tasks) = Some (value_of_tasks tasks)
  /\ tasks_of_value (value_of_tasks tasks) = Some tasks
  /\ loadTasks (saveTasks tasks) = Replaced tasks.
Proof.
  split; [apply JSON_parse_stringify|]. split; [apply tasks_of_value_of_tasks|].
  unfold loadTasks, saveTasks.
  rewrite JSON_parse_stringify, tasks_of_value_of_tasks.
  unfold JSON_stringify. rewrite append_cons. reflexivity.
Qed.

(** ** The reader on texts of other origin *)

Example JSON_parse_white_space_and_numbers :
  JSON_parse " [1.50, -0, 1e3, 12.5e-1, 0.001, [] , { } , null, true,false ]  " =
    Some (JArr [JNum 15 (-1); JNum 0 0; JNum 1000 0; JNum 125 (-2); JNum 1 (-3);
                JArr []; JObj []; JNull; JBool true; JBool false]).
Proof. vm_compute. reflexivity. Qed.

Example JSON_parse_rejects :
  JSON_parse "[1,]" = None
  /\ JSON_parse "01" = None
  /\ JSON_parse "1." = None
  /\ JSON_parse "{category: 1}" = None
  /\ JSON_parse "[1] x" = None
  /\ JSON_parse EmptyString = None.
Proof. repeat split. Qed.

Example JSON_parse_unicode_escape :
  JSON_parse (String dquote ("\u7814\u767c \ud83d\ude00" ++ String dquote EmptyString)) =
    Some (JStr "研發 😀").
Proof. vm_compute. reflexivity. Qed.

Example JSON_parse_repeated_key :
  JSON_parse ("{" ++ quote "a" ++ ":1," ++ quote "b" ++ ":2," ++ quote "a" ++ ":[3]}") =
    Some (JObj [("a", JArr [JNum 3 0]); ("b", JNum 2 0)]).
Proof. vm_compute. reflexivity. Qed.

Example stored_tasks_load_back :
  loadTasks (saveTasks [standup; flipCompleted report]) =
    Replaced [standup; flipCompleted report].
Proof. vm_compute. reflexivity. Qed.

Example nothing_stored_nothing_loaded :
  loadTasks None = Kept /\ loadTasks (Some "{not json") = Kept.
Proof. split; reflexivity. Qed.

(** * Further properties of the reminder monitor *)

Section MonitorInvariants.

Context `{Host}.

Lemma checkTask_fired_inv (P : Fire -> Prop) (now : Z) (g : bool) st t :
  Forall P (fired st) ->
  (forall taskTime,
     isActive t = true -> isCompleted t = false ->
     Date_parse (remindTime t) = Some taskTime ->
     inWindow now taskTime = true ->
     shouldNotify now taskTime t = true ->
     P {| fire_now := now; fire_task := t;
          delivered := if g then Some (showNotification t) else None |}) ->
  Forall P (fired (checkTask now g st t)).
Proof.
  intros Hst Hnew.
  destruct (checkTask_step now g st t)
    as [-> | (taskTime & Ha & Hc & Hd & Hw & _ & Hs & ->)]; [assumption|].
  cbn [fired]. apply Forall_app. split; [assumption|].
  constructor; [|constructor]. now apply (Hnew taskTime).
Qed.

Lemma checkTasks_sound (l : list Task) (ticks : list Tick) now g (some : list Task) st :
  In (now, g) ticks ->
  (forall u, In u some -> In u l) ->
  Forall (sound_fire l ticks) (fired st) ->
  Forall (sound_fire l ticks) (fired (checkTasks now g some st)).
Proof.
  intros Htick. unfold checkTasks. revert st.
  induction some as [|u some IH]; intros st Hsub Hst; cbn [fold_left]; [assumption|].
  apply IH; [intros v Hv; apply Hsub; now right|].
  apply checkTask_fired_inv; [assumption|].
  intros taskTime Ha Hc Hd Hw Hs. unfold sound_fire. cbn [fire_task fire_now delivered].
  split; [apply Hsub; now left|]. split; [now exists g|].
  split; [assumption|]. split; [assumption|]. now exists taskTime.
Qed.

Lemma run_sound (l : list Task) (ticks some : list Tick) st :
  (forall tk, In tk some -> In tk ticks) ->
  Forall (sound_fire l ticks) (fired st) ->
  Forall (sound_fire l ticks) (fired (run l some st)).
Proof.
  unfold run. revert st.
  induction some as [|[now g] some IH]; intros st Hsub Hst; cbn [fold_left];
    [assumption|].
  apply IH; [intros tk Htk; apply Hsub; now right|].
  apply checkTasks_sound; auto. apply Hsub. now left.
Qed.

End MonitorInvariants.

Lemma same_minute_same_day (a b : Z) :
  0 <= b - a < 60000 ->
  (b / msPerMinute) mod 60 = (a / msPerMinute) mod 60 ->
  b / msPerDay = a / msPerDay.
Proof.
  unfold msPerMinute, msPerDay. intros Hclose Hminute.
  assert (Hsame : b / 60000 = a / 60000).
  { revert Hminute. Z.to_euclidean_division_equations. lia. }
  replace 86400000 with (60000 * 1440) by reflexivity.
  rewrite <- !Z.div_div by lia. now rewrite Hsame.
Qed.

Section MonitorExtras.

Context `{Host}.

(** X1.  Every entry of the history of a run from the initial state is a
    pass through the notifying branch: for a task of the collection that
    is active and not completed, at the clock reading of one of the ticks
    and inside the task's window, with its schedule matching; what was
    shown, if the permission of that tick allowed it, is the notification
    with the task's content as body. *)
Theorem fired_history_is_sound (l : list Task) (ticks : list Tick) (f : Fire) :
  In f (fired (run l ticks initialMonitor)) ->
  In (fire_task f) l
  /\ (exists g, In (fire_now f, g) ticks
        /\ delivered f = if g then Some (showNotification (fire_task f)) else None)
  /\ isActive (fire_task f) = true
  /\ isCompleted (fire_task f) = false
  /\ exists taskTime,
       Date_parse (remindTime (fire_task f)) = Some taskTime
       /\ taskTime - fire_now f <= 0 /\ taskTime - fire_now f > -60000
       /\ shouldNotify (fire_now f) taskTime (fire_task f) = true.
Proof.
  intros Hin.
  assert (Hall : Forall (sound_fire l ticks) (fired (run l ticks initialMonitor)))
    by (apply run_sound; [auto | constructor]).
  rewrite List.Forall_forall in Hall.
  destruct (Hall f Hin) as (Hl & Hg & Ha & Hc & taskTime & Hd & Hw & Hs).
  apply inWindow_true in Hw.
  split; [assumption|]. split; [assumption|]. split; [assumption|].
  split; [assumption|]. exists taskTime. tauto.
Qed.

(** The set and the history move together. *)
Lemma checkTask_keys_inv now g st t :
  (size (notified st) = length (fired st)
   /\ forall k, k ∈ notified st <->
        exists f taskTime,
          In f (fired st)
          /\ Date_parse (remindTime (fire_task f)) = Some taskTime
          /\ k = notificationKey (id (fire_task f)) taskTime) ->
  size (notified (checkTask now g st t)) = length (fired (checkTask now g st t))
  /\ forall k, k ∈ notified (checkTask now g st t) <->
       exists f taskTime,
         In f (fired (checkTask now g st t))
         /\ Date_parse (remindTime (fire_task f)) = Some taskTime
         /\ k = notificationKey (id (fire_task f)) taskTime.
Proof.
  intros [Hsize Hkeys].
  destruct (checkTask_step now g st t)
    as [-> | (taskTime & _ & _ & Hd & _ & Hk & _ & ->)]; [now split|].
  cbn [notified fired]. split.
  - rewrite size_union by (now apply disjoint_singleton_l).
    rewrite size_singleton, length_app, Hsize. cbn. lia.
  - intros k. rewrite elem_of_union, elem_of_singleton, Hkeys. split.
    + intros [-> | (f & fTime & Hf & Hfd & ->)].
      * eexists _, taskTime. split; [apply in_or_app; right; now left|]. now split.
      * exists f, fTime. split; [apply in_or_app; now left|]. now split.
    + intros (f & fTime & Hf & Hfd & ->).
      apply in_app_or in Hf as [Hf | [<- | []]].
      * right. now exists f, fTime.
      * left. cbn [fire_task] in *. congruence.
Qed.

(** X2.  Over a run from the initial state the notified set holds
    exactly the keys of the tasks in the history, one key for each entry:
    its size is the number of fires so far.  It is never pruned: running
    further ticks only extends it. *)
Theorem notified_holds_one_key_per_fire (l : list Task) (ticks more : list Tick) :
  size (notified (run l ticks initialMonitor)) =
    length (fired (run l ticks initialMonitor))
  /\ (forall k, k ∈ notified (run l ticks initialMonitor) <->
        exists f taskTime,
          In f (fired (run l ticks initialMonitor))
          /\ Date_parse (remindTime (fire_task f)) = Some taskTime
          /\ k = notificationKey (id (fire_task f)) taskTime)
  /\ notified (run l ticks initialMonitor)
       ⊆ notified (run l (ticks ++ more) initialMonitor).
Proof.
  assert (Hinv : forall st,
    (size (notified st) = length (fired st)
     /\ forall k, k ∈ notified st <->
          exists f taskTime,
            In f (fired st)
            /\ Date_parse (remindTime (fire_task f)) = Some taskTime
            /\ k = notificationKey (id (fire_task f)) taskTime) ->
    size (notified (run l ticks st)) = length (fired (run l ticks st))
    /\ forall k, k ∈ notified (run l ticks st) <->
         exists f taskTime,
           In f (fired (run l ticks st))
           /\ Date_parse (remindTime (fire_task f)) = Some taskTime
           /\ k = notificationKey (id (fire_task f)) taskTime).
  { unfold run. induction ticks as [|tk ticks IH]; intros st Hst; cbn [fold_left];
      [assumption|].
    apply IH. unfold checkTasks. clear IH. revert st Hst.
    induction l as [|u l IHl]; intros st Hst; cbn [fold_left]; [assumption|].
    apply IHl. now apply checkTask_keys_inv. }
  destruct (Hinv initialMonitor) as [Hsize Hkeys].
  { split; [reflexivity|]. intros k. split.
    - intros Hk. now apply not_elem_of_empty in Hk.
    - intros (f & _ & [] & _). }
  split; [assumption|]. split; [assumption|].
  rewrite run_app. apply run_notified_mono.
Qed.

End MonitorExtras.

Section MonitorSchedules.

Context `{Host}.

Lemma recurring_fire_same_day now g st t taskTime :
  repeatDays t <> [] ->
  Date_parse (remindTime t) = Some taskTime ->
  LocalTZA now = LocalTZA taskTime ->
  fired (checkTask now g st t) <> fired st ->
  localDay now = localDay taskTime /\ In (getDay taskTime) (repeatDays t).
Proof.
  intros Hrep Hd Htz Hfire.
  destruct (checkTask_step now g st t)
    as [Heq | (tt & _ & _ & Hd' & Hw & _ & Hs & _)]; [now rewrite Heq in Hfire|].
  rewrite Hd in Hd'. injection Hd' as <-.
  apply inWindow_true in Hw.
  destruct (shouldNotify_recurring now taskTime t Hrep Hs) as (Hday & _ & Hmin).
  assert (Hsame : LocalTime now / msPerDay = LocalTime taskTime / msPerDay).
  { apply same_minute_same_day.
    - unfold LocalTime. rewrite Htz. lia.
    - symmetry. exact Hmin. }
  split; [exact Hsame|].
  unfold getDay in *. now rewrite <- Hsame.
Qed.

(** X3.  A recurring task can only fire on the calendar day of its stored
    [remindTime] (where the offset of local time is the same at both
    instants), so the weekday of the stored date has to be one of its
    [repeatDays]: with a constant offset, a task stored for a weekday that
    is not among its [repeatDays] never fires at all. *)
Theorem recurring_task_needs_stored_weekday (t : Task) (taskTime : Z) :
  repeatDays t <> [] ->
  Date_parse (remindTime t) = Some taskTime ->
  (forall now g st,
     LocalTZA now = LocalTZA taskTime ->
     fired (checkTask now g st t) <> fired st ->
     localDay now = localDay taskTime /\ In (getDay taskTime) (repeatDays t))
  /\ ((forall x, LocalTZA x = LocalTZA taskTime) ->
      ~ In (getDay taskTime) (repeatDays t) ->
      forall l ticks st,
        firesOf t (fired (run l ticks st)) = firesOf t (fired st)).
Proof.
  intros Hrep Hd. split.
  - intros now g st. now apply recurring_fire_same_day.
  - intros Htz Hday l ticks.
    assert (Hskip : forall now g st, checkTask now g st t = st).
    { intros now g st.
      destruct (checkTask_step now g st t) as [Heq | (tt & _ & _ & _ & _ & _ & _ & Heq)];
        [assumption|].
      exfalso. apply Hday.
      apply (recurring_fire_same_day now g st t taskTime Hrep Hd (Htz now)).
      rewrite Heq. cbn [fired]. intros Happ.
      apply (f_equal (@length Fire)) in Happ. rewrite length_app in Happ.
      cbn in Happ. lia. }
    unfold run. induction ticks as [|tk ticks IH]; intros st; cbn [fold_left];
      [reflexivity|].
    rewrite IH. apply checkTasks_firesOf_silent. intros st'. apply Hskip.
Qed.

(** X4.  A task whose [remindTime] is not a date is skipped by every
    check: the loop body leaves the state as it is, whatever the clock,
    and no run adds a fire for the task. *)
Theorem invalid_date_never_fires (t : Task) :
  Date_parse (remindTime t) = None ->
  (forall now g st, checkTask now g st t = st)
  /\ (forall l ticks st,
        firesOf t (fired (run l ticks st)) = firesOf t (fired st)).
Proof.
  intros Hd. split; [intros; now apply checkTask_invalid|].
  intros l ticks. unfold run.
  induction ticks as [|tk ticks IH]; intros st; cbn [fold_left]; [reflexivity|].
  rewrite IH. apply checkTasks_firesOf_silent.
  intros st'. now apply checkTask_invalid.
Qed.

(** X5.  In a collection with unique ids and reminder times from 1970 on,
    no task fires twice: over any run from the initial state the history
    holds at most one entry for it, whether it is a one-time or a
    recurring task. *)
Theorem no_task_fires_twice (l : list Task) (ticks : list Tick) (t : Task) :
  (forall u, In u l -> id u = id t -> u = t) ->
  (forall u uTime, In u l -> Date_parse (remindTime u) = Some uTime -> 0 <= uTime) ->
  (forall taskTime, Date_parse (remindTime t) = Some taskTime -> 0 <= taskTime) ->
  (length (firesOf t (fired (run l ticks initialMonitor))) <= 1)%nat.
Proof.
  intros Hids Htimes Ht. apply task_fires_at_most_once.
  intros taskTime u uTime Hd. apply unique_ids_unique_keys; auto.
Qed.

End MonitorSchedules.

Lemma fired_history_is_sound_witness :
  In report [standup; report]
  /\ isActive report = true.
Proof.
  destruct (@fired_history_is_sound taipeiHost [standup; report]
              [(wednesday0900 + 5000, false)]
              {| fire_now := wednesday0900 + 5000; fire_task := report;
                 delivered := None |})
    as (Hin & _ & Ha & _).
  - vm_compute. right; left; reflexivity.
  - split; assumption.
Defined.

Lemma recurring_task_needs_stored_weekday_witness :
  firesOf tuesdayStandup
    (fired (@run taipeiHost [tuesdayStandup; report]
              [(wednesday0900 - msPerDay, true); (wednesday0900, true)]
              initialMonitor)) = [].
Proof.
  apply (proj2 (@recurring_task_needs_stored_weekday taipeiHost tuesdayStandup
                  (wednesday0900 - msPerDay)
                  ltac:(discriminate) ltac:(vm_compute; reflexivity))).
  - reflexivity.
  - vm_compute. intros [Hd|[Hd|[]]]; discriminate Hd.
Defined.

Lemma invalid_date_never_fires_witness :
  @checkTask taipeiHost wednesday0900 true initialMonitor undated = initialMonitor.
Proof.
  apply (proj1 (@invalid_date_never_fires taipeiHost undated eq_refl)).
Defined.

Lemma no_task_fires_twice_witness :
  (length (firesOf standup
     (fired (@run taipeiHost [standup; report]
               [(wednesday0900, true); ((wednesday0900 + oneWeek)%Z, true)]
               initialMonitor))) <= 1)%nat.
Proof.
  apply (@no_task_fires_twice taipeiHost).
  - intros u [<-|[<-|[]]] Hid; [reflexivity | discriminate Hid].
  - intros u uTime [<-|[<-|[]]] Hd; vm_compute in Hd; injection Hd as <-; discriminate.
  - intros taskTime Hd. vm_compute in Hd. injection Hd as <-. discriminate.
Defined.

(** * Further properties of the task store *)

Lemma deleteTask_In (id0 : string) (l : list Task) (t : Task) :
  In t (deleteTask id0 l) <-> In t l /\ id t <> id0.
Proof.
  unfold deleteTask. rewrite filter_In, negb_true_iff, String.eqb_neq. tauto.
Qed.

Lemma toggleTask_ids (id0 : string) (l : list Task) :
  map id (toggleTask id0 l) = map id l.
Proof.
  unfold toggleTask. rewrite map_map. apply map_ext.
  intros t. now destruct (String.eqb (id t) id0).
Qed.

Lemma deleteTask_ids (id0 : string) (l : list Task) :
  map id (deleteTask id0 l) = List.filter (fun i => negb (String.eqb i id0)) (map id l).
Proof.
  unfold deleteTask. induction l as [|t l IH]; [reflexivity|].
  cbn [List.filter map]. destruct (String.eqb (id t) id0); cbn [negb map]; now rewrite IH.
Qed.

(** X6.  [deleteTask] removes every task that has the id and nothing
    else: the tasks left are those of the collection with another id, in
    their former order, and deleting the same id again changes nothing. *)
Theorem deleteTask_removes_exactly (id0 : string) (l : list Task) :
  (forall t, In t (deleteTask id0 l) <-> In t l /\ id t <> id0)
  /\ ~ In id0 (map id (deleteTask id0 l))
  /\ sublist (deleteTask id0 l) l
  /\ deleteTask id0 (deleteTask id0 l) = deleteTask id0 l.
Proof.
  split; [intros t; apply deleteTask_In|]. split; [|split].
  - rewrite in_map_iff. intros (t & Hid & Hin).
    apply deleteTask_In in Hin as [_ Hne]. contradiction.
  - unfold deleteTask. induction l as [|t l IH]; [constructor|].
    cbn [List.filter]. destruct (negb (String.eqb (id t) id0)); now constructor.
  - unfold deleteTask. induction l as [|t l IH]; [reflexivity|].
    cbn [List.filter]. destruct (negb (String.eqb (id t) id0)) eqn:Hkeep;
      [|assumption].
    cbn [List.filter]. rewrite Hkeep. now f_equal.
Qed.

(** X7.  The store operations commute: a toggle and a delete, two
    deletes and two toggles give the same collection in either order,
    whatever the ids. *)
Theorem store_operations_commute (a b : string) (l : list Task) :
  toggleTask a (deleteTask b l) = deleteTask b (toggleTask a l)
  /\ deleteTask a (deleteTask b l) = deleteTask b (deleteTask a l)
  /\ toggleTask a (toggleTask b l) = toggleTask b (toggleTask a l).
Proof.
  split; [|split].
  - unfold toggleTask, deleteTask. induction l as [|t l IH]; [reflexivity|].
    cbn [List.filter map].
    assert (Hid : id (if String.eqb (id t) a then flipCompleted t else t) = id t)
      by now destruct (String.eqb (id t) a).
    rewrite Hid. destruct (negb (String.eqb (id t) b)); cbn [map]; now rewrite IH.
  - unfold deleteTask. induction l as [|t l IH]; [reflexivity|].
    cbn [List.filter].
    destruct (negb (String.eqb (id t) a)) eqn:Ha,
             (negb (String.eqb (id t) b)) eqn:Hb;
      cbn [List.filter]; rewrite ?Ha, ?Hb, IH; reflexivity.
  - unfold toggleTask. rewrite !map_map. apply map_ext. intros t.
    destruct (String.eqb (id t) a) eqn:Ha, (String.eqb (id t) b) eqn:Hb;
      cbn [flipCompleted id]; rewrite ?Ha, ?Hb; reflexivity.
Qed.

(** X8.  Unique ids are an invariant of the store: if no two tasks share
    an id, the same holds after a toggle, after a delete, and after
    appending a task whose id is not yet in the collection. *)
Theorem store_keeps_ids_unique (l : list Task) :
  List.NoDup (map id l) ->
  (forall id0, List.NoDup (map id (toggleTask id0 l)))
  /\ (forall id0, List.NoDup (map id (deleteTask id0 l)))
  /\ (forall t, ~ In (id t) (map id l) -> List.NoDup (map id (l ++ [t])%list)).
Proof.
  intros Hnodup. split; [|split].
  - intros id0. now rewrite toggleTask_ids.
  - intros id0. rewrite deleteTask_ids. now apply List.NoDup_filter.
  - intros t Hfresh. rewrite map_app. cbn [map].
    apply List.NoDup_app.
    + assumption.
    + constructor; [intros [] | constructor].
    + intros i Hi [<- | []]. contradiction.
Qed.

Lemma toggleTask_absent (id0 : string) (l : list Task) :
  ~ In id0 (map id l) -> toggleTask id0 l = l.
Proof.
  unfold toggleTask. induction l as [|t l IH]; intros Habsent; [reflexivity|].
  cbn [map] in *. destruct (String.eqb (id t) id0) eqn:Heq.
  - apply String.eqb_eq in Heq. exfalso. apply Habsent. now left.
  - f_equal. apply IH. intros Hin. apply Habsent. now right.
Qed.

Lemma pendingCount_cons (t : Task) (l : list Task) :
  pendingCount (t :: l) =
    ((if isCompleted t then 0 else 1) + pendingCount l)%nat.
Proof. unfold pendingCount. cbn [List.filter]. now destruct (isCompleted t). Qed.

(** X9.  The counter of pending tasks follows the store: with unique
    ids, toggling a task of the collection moves the counter by exactly
    one (down for a pending task, up for a completed one), and deleting it
    lowers the counter by one exactly when the task was pending. *)
Theorem pendingCount_follows_store (l : list Task) (t : Task) :
  List.NoDup (map id l) -> In t l ->
  (pendingCount (toggleTask (id t) l) + (if isCompleted t then 0 else 1) =
     pendingCount l + (if isCompleted t then 1 else 0))%nat
  /\ (pendingCount (deleteTask (id t) l) + (if isCompleted t then 0 else 1) =
        pendingCount l)%nat.
Proof.
  induction l as [|u l IH]; intros Hnodup Hin; [contradiction|].
  cbn [map] in Hnodup. inversion Hnodup as [|i ids Hnotin Hrest]; subst.
  destruct Hin as [-> | Hin].
  - assert (Htoggle : toggleTask (id t) (t :: l) = flipCompleted t :: l).
    { unfold toggleTask. cbn [map]. rewrite String.eqb_refl. f_equal.
      now apply toggleTask_absent. }
    assert (Hdelete : deleteTask (id t) (t :: l) = l).
    { unfold deleteTask. cbn [List.filter]. rewrite String.eqb_refl. cbn [negb].
      now apply deleteTask_absent. }
    rewrite Htoggle, Hdelete, !pendingCount_cons. cbn [flipCompleted isCompleted].
    destruct (isCompleted t); cbn; lia.
  - assert (Hne : String.eqb (id u) (id t) = false).
    { apply String.eqb_neq. intros Heq. apply Hnotin. rewrite Heq.
      now apply in_map. }
    destruct (IH Hrest Hin) as [IHt IHd].
    unfold toggleTask, deleteTask in *. cbn [map List.filter].
    rewrite Hne. cbn [negb]. rewrite !pendingCount_cons. lia.
Qed.

Lemma pendingCount_follows_store_witness :
  (pendingCount (toggleTask (id report) [standup; report])
     + (if isCompleted report then 0 else 1) =
   pendingCount [standup; report] + (if isCompleted report then 1 else 0))%nat
  /\ (pendingCount (deleteTask (id report) [standup; report])
        + (if isCompleted report then 0 else 1) =
      pendingCount [standup; report])%nat.
Proof.
  apply (pendingCount_follows_store [standup; report] report).
  - repeat constructor; cbn; intros Hin;
      repeat (destruct Hin as [Hin|Hin]; [discriminate Hin|]); exact Hin.
  - right; left; reflexivity.
Defined.

Lemma store_keeps_ids_unique_witness :
  List.NoDup (map id (toggleTask (id report) [standup; report]))
  /\ List.NoDup (map id (deleteTask (id report) [standup; report]))
  /\ List.NoDup (map id ([standup; report] ++ [tuesdayStandup])%list).
Proof.
  assert (Hnodup : List.NoDup (map id [standup; report])).
  { repeat constructor; cbn; intros Hin;
      repeat (destruct Hin as [Hin|Hin]; [discriminate Hin|]); exact Hin. }
  destruct (store_keeps_ids_unique [standup; report] Hnodup) as (Ht & Hd & Ha).
  split; [apply Ht|]. split; [apply Hd|]. apply Ha.
  cbn. intros Hin. repeat (destruct Hin as [Hin|Hin]; [discriminate Hin|]). exact Hin.
Defined.

(** * Properties of the handlers *)

Section HandlerFacts.

Context `{Host} `{Gemini}.

(** X10.  Given a valid date, [handleAddTask] always fulfils, sends one
    categorisation request, and leaves the collection extended at its end
    by exactly one task: the given content, the ISO form of the date, the
    given repeat days, the category the gateway answered ([OTHER] when
    the request was rejected), active and not completed; the tasks that
    were there are untouched and [isAdding] is back to [false]. *)
Theorem handleAddTask_adds_one_task (toISOString : Z -> string)
    (randomUUID : string) (Date_now : Z) (content0 : string) (t : Z)
    (days : list Z) (st : AppState) (sent : list Request) :
  exists c : TaskCategory,
    fst (categorizeTask content0 sent) = Normal c
    /\ ((exists e, generateContent (categoryRequest content0) = Throw e) -> c = OTHER)
    /\ handleAddTask toISOString randomUUID Date_now content0 (Some t) days st sent =
         ({| tasks := (tasks st ++
               [ {| id := randomUUID; content := content0;
                    remindTime := toISOString t; repeatDays := days;
                    category := c; isActive := true; isCompleted := false;
                    createdAt := Date_now |} ])%list;
             summary := summary st;
             isSummarizing := isSummarizing st;
             isAdding := false |},
          Fulfilled,
          (sent ++ [categoryRequest content0])%list).
Proof.
  unfold handleAddTask. rewrite categorizeTask_unfold. cbn [fst].
  eexists. split; [reflexivity|]. split; [|reflexivity].
  intros (e & ->). reflexivity.
Qed.

(** X11.  Given an invalid date, [handleAddTask] still sends the
    categorisation request, then rejects with the [RangeError] of
    [toISOString]: no task is added and [isAdding] stays [true]. *)
Theorem handleAddTask_invalid_date (toISOString : Z -> string)
    (randomUUID : string) (Date_now : Z) (content0 : string)
    (days : list Z) (st : AppState) (sent : list Request) :
  handleAddTask toISOString randomUUID Date_now content0 None days st sent =
    ({| tasks := tasks st; summary := summary st;
        isSummarizing := isSummarizing st; isAdding := true |},
     RejectedRangeError,
     (sent ++ [categoryRequest content0])%list).
Proof.
  unfold handleAddTask. rewrite categorizeTask_unfold. reflexivity.
Qed.

End HandlerFacts.

Lemma filter_pending_idem (l : list Task) :
  List.filter (fun t => negb (isCompleted t))
    (List.filter (fun t => negb (isCompleted t)) l) =
  List.filter (fun t => negb (isCompleted t)) l.
Proof.
  induction l as [|t l IH]; [reflexivity|].
  cbn [List.filter]. destruct (negb (isCompleted t)) eqn:Hp; [|assumption].
  cbn [List.filter]. rewrite Hp. now f_equal.
Qed.

Section HandlerCompositions.

Context `{Host} `{Gemini}.

(** X12.  Adding and polling compose.  When the host reads back the ISO
    form it writes, a one-time task added by [handleAddTask] under a
    fresh id for an instant [t] from 1970 on, to a collection whose
    reminder times are all from 1970 on, fires exactly once over any
    sequence of checks of the new collection that reaches its window: at
    the first check inside the window.  When the permission is granted at
    that check, what is shown is the notification with the entered
    content as its body; when it is not, nothing is shown and the
    occurrence is used up all the same. *)
Theorem added_task_fires_once_when_due (toISOString : Z -> string)
    (randomUUID : string) (Date_now : Z) (content0 : string) (t : Z)
    (st : AppState) (sent : list Request)
    (before after : list Tick) (now : Z) (g : bool) :
  Date_parse (toISOString t) = Some t ->
  0 <= t ->
  ~ In randomUUID (map id (tasks st)) ->
  (forall u uTime, In u (tasks st) -> Date_parse (remindTime u) = Some uTime ->
     0 <= uTime) ->
  Forall (fun tk : Tick => inWindow (fst tk) t = false) before ->
  inWindow now t = true ->
  exists (newTask : Task) (st' : AppState),
    handleAddTask toISOString randomUUID Date_now content0 (Some t) [] st sent =
      (st', Fulfilled, (sent ++ [categoryRequest content0])%list)
    /\ tasks st' = (tasks st ++ [newTask])%list
    /\ id newTask = randomUUID
    /\ content newTask = content0
    /\ repeatDays newTask = []
    /\ firesOf newTask
         (fired (run (tasks st') (before ++ (now, g) :: after) initialMonitor)) =
       [ {| fire_now := now; fire_task := newTask;
            delivered :=
              if g then Some {| title := "AI Smart Assistant 提醒";
                                body := content0;
                                icon := "https://picsum.photos/64/64" |}
              else None |} ].
Proof.
  intros Hround Ht Hfresh Htimes Hbefore Hw.
  destruct (handleAddTask_adds_one_task toISOString randomUUID Date_now content0 t
              [] st sent) as (c & _ & _ & Hadd).
  eexists _, _. split; [exact Hadd|]. cbn [tasks]. split; [reflexivity|].
  do 3 (split; [reflexivity|]).
  set (newTask := {| id := randomUUID; content := content0;
                     remindTime := toISOString t; repeatDays := [];
                     category := c; isActive := true; isCompleted := false;
                     createdAt := Date_now |}).
  set (l := (tasks st ++ [newTask])%list).
  assert (Hin : In newTask l) by (apply in_or_app; right; now left).
  assert (Hd : Date_parse (remindTime newTask) = Some t) by exact Hround.
  assert (Huniq : forall u uTime, In u l -> Date_parse (remindTime u) = Some uTime ->
            notificationKey (id u) uTime = notificationKey (id newTask) t -> u = newTask).
  { apply unique_ids_unique_keys; [| |assumption].
    - intros u Hu Hid. apply in_app_or in Hu as [Hu | [<- | []]]; [|reflexivity].
      exfalso. apply Hfresh. cbn [id newTask] in Hid. rewrite <- Hid.
      now apply in_map.
    - intros u uTime Hu Hdu. apply in_app_or in Hu as [Hu | [<- | []]].
      + now apply (Htimes u).
      + rewrite Hd in Hdu. now injection Hdu as <-. }
  rewrite run_app.
  destruct (run_keeps_fresh l before newTask t initialMonitor Hd Huniq Hbefore)
    as [Hk Hf]; [apply not_elem_of_empty|].
  change (run l ((now, g) :: after) (run l before initialMonitor))
    with (run l after (checkTasks now g l (run l before initialMonitor))).
  rewrite (run_firesOf_known l after newTask t) by
    (try assumption; apply checkTasks_records_due; auto using shouldNotify_oneTime).
  rewrite (checkTasks_first_fire now g l newTask t) by auto using shouldNotify_oneTime.
  now rewrite Hf.
Qed.

(** X13.  [generateSummary] always fulfils and leaves a non-empty summary
    to show, with [isSummarizing] back to [false] and the tasks as they
    were.  When no task is pending it shows the empty-state message
    without sending anything; otherwise it sends one request, whose
    prompt lists the pending tasks only. *)
Theorem generateSummary_always_shows_a_message (st : AppState) (sent : list Request) :
  exists s : string,
    s <> EmptyString
    /\ generateSummary st sent =
         ({| tasks := tasks st; summary := Some s;
             isSummarizing := false; isAdding := isAdding st |},
          Fulfilled,
          if Nat.eqb (pendingCount (tasks st)) 0 then sent
          else (sent ++ [summaryRequest (tasks st)])%list)
    /\ (pendingCount (tasks st) = 0%nat ->
        s = "目前沒有待辦事項。享受這美好的一天吧！")
    /\ contents (summaryRequest (tasks st)) =
         summaryPrompt
           (join newline
              (map describeTask
                 (List.filter (fun t => negb (isCompleted t)) (tasks st)))).
Proof.
  assert (Hreq : summaryRequest (List.filter (fun t => negb (isCompleted t)) (tasks st))
                 = summaryRequest (tasks st)).
  { unfold summaryRequest. now rewrite filter_pending_idem. }
  assert (Hmain : exists s : string,
    s <> EmptyString
    /\ generateSummary st sent =
         ({| tasks := tasks st; summary := Some s;
             isSummarizing := false; isAdding := isAdding st |},
          Fulfilled,
          if Nat.eqb (pendingCount (tasks st)) 0 then sent
          else (sent ++ [summaryRequest (tasks st)])%list)
    /\ (pendingCount (tasks st) = 0%nat ->
        s = "目前沒有待辦事項。享受這美好的一天吧！")).
  { unfold generateSummary, pendingCount. cbn [tasks isAdding summary].
    rewrite <- Hreq.
    destruct (List.filter (fun t => negb (isCompleted t)) (tasks st)) as [|a l].
    - eexists. split; [|split; [reflexivity | intros _; reflexivity]]. discriminate.
    - unfold getDailySummary, try_catch, bind, request, ret. cbn [length Nat.eqb].
      destruct (generateContent (summaryRequest (a :: l))) as [text|e].
      + eexists.
        split; [|split; [reflexivity | intros Hlen; cbn in Hlen; discriminate Hlen]].
        apply text_or_nonempty. discriminate.
      + eexists.
        split; [|split; [reflexivity | intros Hlen; cbn in Hlen; discriminate Hlen]].
        discriminate. }
  destruct Hmain as (s & Hs & Heq & Hempty).
  exists s. split; [assumption|]. split; [assumption|]. split; [assumption|].
  reflexivity.
Qed.

End HandlerCompositions.

Lemma added_task_fires_once_when_due_witness :
  exists (newTask : Task) (st' : AppState),
    @handleAddTask offlineGemini iso_of_time "0b9d6c8e-2a4f-4e1b-8c3d-7f6e5d4c3b2a"
      1704240000000 "交報告" (Some wednesday0900) []
      {| tasks := [standup]; summary := None; isSummarizing := false; isAdding := false |}
      [] =
      (st', Fulfilled, ([] ++ [categoryRequest "交報告"])%list)
    /\ tasks st' = ([standup] ++ [newTask])%list
    /\ id newTask = "0b9d6c8e-2a4f-4e1b-8c3d-7f6e5d4c3b2a"
    /\ content newTask = "交報告"
    /\ repeatDays newTask = []
    /\ firesOf newTask
         (fired (@run taipeiHost (tasks st')
            ([(wednesday0900 - 1000, true)] ++ (wednesday0900, true) ::
             [(wednesday0900 + 1000, true)]) initialMonitor)) =
       [ {| fire_now := wednesday0900; fire_task := newTask;
            delivered := Some {| title := "AI Smart Assistant 提醒";
                                 body := "交報告";
                                 icon := "https://picsum.photos/64/64" |} |} ].
Proof.
  apply (@added_task_fires_once_when_due taipeiHost offlineGemini iso_of_time
           "0b9d6c8e-2a4f-4e1b-8c3d-7f6e5d4c3b2a" 1704240000000 "交報告" wednesday0900
           {| tasks := [standup]; summary := None; isSummarizing := false;
              isAdding := false |}
           [] [(wednesday0900 - 1000, true)] [(wednesday0900 + 1000, true)]
           wednesday0900 true).
  - vm_compute; reflexivity.
  - discriminate.
  - cbn. intros [Hid|[]]. discriminate Hid.
  - intros u uTime [<-|[]] Hd. vm_compute in Hd. injection Hd as <-. discriminate.
  - repeat constructor.
  - reflexivity.
Defined.

Lemma generateSummary_always_shows_a_message_witness :
  exists s : string,
    s <> EmptyString
    /\ @generateSummary taipeiHost offlineGemini
         {| tasks := [flipCompleted report]; summary := None;
            isSummarizing := false; isAdding := false |} [] =
         ({| tasks := [flipCompleted report]; summary := Some s;
             isSummarizing := false; isAdding := false |}, Fulfilled, [])
    /\ s = "目前沒有待辦事項。享受這美好的一天吧！".
Proof.
  destruct (@generateSummary_always_shows_a_message taipeiHost offlineGemini
              {| tasks := [flipCompleted report]; summary := None;
                 isSummarizing := false; isAdding := false |} [])
    as (s & Hs & Heq & Hempty & _).
  exists s. split; [assumption|]. split; [exact Heq|]. apply Hempty. reflexivity.
Defined.

(** * Properties of the entry form *)

Lemma toggleDay_In (day : Z) (prev : list Z) (d : Z) :
  In d (toggleDay day prev) <->
    (d <> day /\ In d prev) \/ (d = day /\ ~ In day prev).
Proof.
  unfold toggleDay. destruct (includes day prev) eqn:Hinc.
  - apply includes_In in Hinc.
    rewrite filter_In, negb_true_iff, Z.eqb_neq. split.
    + intros [Hin Hne]. left. now split.
    + intros [[Hne Hin] | [-> Hnot]]; [now split | contradiction].
  - assert (Hnot : ~ In day prev).
    { intros Hin. apply includes_In in Hin. congruence. }
    rewrite in_app_iff. cbn [In]. split.
    + intros [Hin | [<- | []]].
      * left. split; [|assumption]. intros ->. contradiction.
      * right. now split.
    + intros [[Hne Hin] | [-> _]]; [now left | right; now left].
Qed.

(** X14.  [toggleDay] flips the membership of the day and of no other
    day; it keeps a list free of duplicates, and two toggles of the same
    day give back a list with the same days (the list itself when the day
    was not in it). *)
Theorem toggleDay_flips_one_day (day : Z) (prev : list Z) :
  (forall d, In d (toggleDay day prev) <->
     (d <> day /\ In d prev) \/ (d = day /\ ~ In day prev))
  /\ (List.NoDup prev -> List.NoDup (toggleDay day prev))
  /\ (forall d, In d (toggleDay day (toggleDay day prev)) <-> In d prev)
  /\ (~ In day prev -> toggleDay day (toggleDay day prev) = prev).
Proof.
  split; [intros d; apply toggleDay_In|]. split; [|split].
  - intros Hnodup. unfold toggleDay. destruct (includes day prev) eqn:Hinc.
    + now apply List.NoDup_filter.
    + apply List.NoDup_app; [assumption | repeat constructor; intros [] |].
      intros d Hd [<- | []]. apply includes_In in Hd. congruence.
  - intros d. rewrite !toggleDay_In.
    destruct (Z.eq_dec d day) as [->|Hne]; [|tauto].
    destruct (in_dec Z.eq_dec day prev); tauto.
  - intros Hnot.
    assert (Hinc : includes day prev = false).
    { destruct (includes day prev) eqn:Hinc; [|reflexivity].
      apply includes_In in Hinc. contradiction. }
    unfold toggleDay at 2. rewrite Hinc. unfold toggleDay.
    assert (Hinc' : includes day (prev ++ [day]) = true).
    { apply includes_In, in_or_app. right. now left. }
    rewrite Hinc'. rewrite List.filter_app. cbn [List.filter].
    rewrite Z.eqb_refl. cbn [negb]. rewrite app_nil_r.
    clear Hinc Hinc'. induction prev as [|d prev IH]; [reflexivity|].
    cbn [List.filter]. destruct (d =? day) eqn:Hd.
    + apply Z.eqb_eq in Hd. exfalso. apply Hnot. now left.
    + cbn [negb]. f_equal. apply IH. intros Hin. apply Hnot. now right.
Qed.

Lemma toggleDay_flips_one_day_witness :
  List.NoDup (toggleDay 3 [1; 3; 5]) /\ toggleDay 2 (toggleDay 2 [1; 3]) = [1; 3].
Proof.
  destruct (toggleDay_flips_one_day 3 [1; 3; 5]) as (_ & Hnodup & _).
  destruct (toggleDay_flips_one_day 2 [1; 3]) as (_ & _ & _ & Hback).
  split.
  - apply Hnodup. repeat constructor; cbn; intros Hin;
      repeat (destruct Hin as [Hin|Hin]; [discriminate Hin|]); exact Hin.
  - apply Hback. cbn. intros Hin.
    repeat (destruct Hin as [Hin|Hin]; [discriminate Hin|]). exact Hin.
Defined.

(** The days ticked so far, after a sequence of clicks on the check
    boxes, starting from the empty selection of the form. *)
Lemma clicks_snoc (clicks : list Z) (day : Z) :
  fold_left (fun prev d => toggleDay d prev) (clicks ++ [day]) [] =
    toggleDay day (fold_left (fun prev d => toggleDay d prev) clicks []).
Proof. now rewrite fold_left_app. Qed.

(** X15.  Whatever sequence of weekday check boxes is clicked, the
    [repeatDays] of the form stay well formed: no day twice, every day one
    of the values 0 to 6 of [DAYS_OF_WEEK], at most seven of them; and a
    day is selected exactly when it was clicked an odd number of times. *)
Theorem form_repeatDays_well_formed (clicks : list Z) :
  Forall (fun d => In d (map fst DAYS_OF_WEEK)) clicks ->
  let days := fold_left (fun prev d => toggleDay d prev) clicks [] in
  List.NoDup days
  /\ Forall (fun d => 0 <= d <= 6) days
  /\ (length days <= 7)%nat
  /\ forall d, In d days <-> Nat.odd (count_occ Z.eq_dec clicks d) = true.
Proof.
  intros Hclicks. cbv zeta.
  assert (Hmain :
    List.NoDup (fold_left (fun prev d => toggleDay d prev) clicks [])
    /\ (forall d, In d (fold_left (fun prev d => toggleDay d prev) clicks []) <->
          Nat.odd (count_occ Z.eq_dec clicks d) = true)).
  { induction clicks as [|day clicks IH] using rev_ind.
    - split; [constructor|]. intros d. cbn. split; [contradiction | discriminate].
    - apply (proj1 (List.Forall_app _ _ _)) in Hclicks. destruct Hclicks as [Hclicks _].
      destruct (IH Hclicks) as [Hnodup Hodd]. rewrite clicks_snoc. split.
      + now apply toggleDay_flips_one_day.
      + intros d. rewrite toggleDay_In, !Hodd, count_occ_app. cbn [count_occ].
        destruct (Z.eq_dec day d) as [->|Hne].
        * rewrite Nat.add_1_r, Nat.odd_succ, <- Nat.negb_odd.
          destruct (Nat.odd (count_occ Z.eq_dec clicks d)); cbn [negb]; split.
          -- intros [[Hn _] | [_ Hn]]; exfalso; now apply Hn.
          -- discriminate.
          -- reflexivity.
          -- intros _. right. split; [reflexivity | discriminate].
        * rewrite Nat.add_0_r. split.
          -- intros [[_ Hd] | [-> _]]; [assumption | contradiction].
          -- intros Hd. left. split; [congruence | assumption]. }
  destruct Hmain as [Hnodup Hodd].
  assert (Hrange : Forall (fun d => 0 <= d <= 6)
                     (fold_left (fun prev d => toggleDay d prev) clicks [])).
  { apply List.Forall_forall. intros d Hd. apply Hodd in Hd.
    assert (Hin : In d clicks).
    { apply (count_occ_In Z.eq_dec). destruct (count_occ Z.eq_dec clicks d);
        [discriminate Hd | lia]. }
    rewrite List.Forall_forall in Hclicks. specialize (Hclicks d Hin).
    cbn in Hclicks. lia. }
  split; [assumption|]. split; [assumption|]. split; [|assumption].
  apply (List.NoDup_incl_length Hnodup (l' := [0; 1; 2; 3; 4; 5; 6])).
  intros d Hd. rewrite List.Forall_forall in Hrange. specialize (Hrange d Hd).
  cbn. lia.
Qed.

Lemma form_repeatDays_well_formed_witness :
  List.NoDup (fold_left (fun prev d => toggleDay d prev) [1; 3; 1; 5; 1] [])
  /\ (length (fold_left (fun prev d => toggleDay d prev) [1; 3; 1; 5; 1]%Z []) <= 7)%nat.
Proof.
  destruct (form_repeatDays_well_formed [1; 3; 1; 5; 1]) as (Hnodup & _ & Hlen & _).
  - repeat constructor; cbn; tauto.
  - split; assumption.
Defined.

(** * Properties of the list view *)

Section StableSort.

Context {A : Type} (cmp : A -> A -> Z) (ok : A -> Prop).

(** A consistent comparison on the elements at hand. *)
Hypothesis cmp_total : forall a b, ok a -> ok b -> 0 < cmp a b -> cmp b a <= 0.
Hypothesis cmp_trans :
  forall a b c, ok a -> ok b -> ok c -> cmp a b <= 0 -> cmp b c <= 0 -> cmp a c <= 0.

Lemma insertBy_perm (x : A) (l : list A) : Permutation (insertBy cmp x l) (x :: l).
Proof.
  induction l as [|y l IH]; [reflexivity|].
  cbn [insertBy]. destruct (0 <? cmp x y); [|reflexivity].
  rewrite IH. apply perm_swap.
Qed.

Lemma sortBy_perm (l : list A) : Permutation (sortBy cmp l) l.
Proof.
  induction l as [|x l IH]; [reflexivity|].
  cbn [sortBy]. rewrite insertBy_perm. now constructor.
Qed.

Lemma insertBy_sorted (x : A) (l : list A) :
  ok x -> List.Forall ok l ->
  StronglySorted (fun a b => cmp a b <= 0) l ->
  StronglySorted (fun a b => cmp a b <= 0) (insertBy cmp x l).
Proof.
  intros Hx Hok Hsorted. induction Hsorted as [|y l Hsorted IH Hy].
  - repeat constructor.
  - inversion Hok as [|y' l' Hoky Hokl]; subst.
    cbn [insertBy]. destruct (0 <? cmp x y) eqn:Hcmp.
    + apply Z.ltb_lt in Hcmp. constructor; [now apply IH|].
      eapply Permutation_Forall; [symmetry; apply insertBy_perm|].
      constructor; [now apply cmp_total | assumption].
    + apply Z.ltb_ge in Hcmp. constructor; [now constructor|].
      constructor; [assumption|].
      rewrite List.Forall_forall in Hy, Hokl. apply List.Forall_forall.
      intros z Hz. apply (cmp_trans x y z); auto.
Qed.

Lemma sortBy_sorted (l : list A) :
  List.Forall ok l -> StronglySorted (fun a b => cmp a b <= 0) (sortBy cmp l).
Proof.
  induction l as [|x l IH]; intros Hok; [constructor|].
  inversion Hok as [|x' l' Hx Hl]; subst. cbn [sortBy].
  apply insertBy_sorted; [assumption | | now apply IH].
  eapply Permutation_Forall; [symmetry; apply sortBy_perm | assumption].
Qed.

(** Elements of one rank are never moved past one another. *)
Lemma insertBy_stable (P : A -> bool) (x : A) (l : list A) :
  (P x = true -> forall y, In y l -> 0 < cmp x y -> P y = false) ->
  List.filter P (insertBy cmp x l) = List.filter P (x :: l).
Proof.
  intros Hrank. induction l as [|y l IH]; [reflexivity|].
  cbn [insertBy]. destruct (0 <? cmp x y) eqn:Hcmp; [|reflexivity].
  apply Z.ltb_lt in Hcmp. cbn [List.filter] in *.
  rewrite IH by (intros Hx z Hz; apply Hrank; [assumption | now right]).
  destruct (P x) eqn:Hx; [|reflexivity].
  now rewrite (Hrank eq_refl y (or_introl eq_refl) Hcmp).
Qed.

Lemma sortBy_stable (P : A -> bool) (l : list A) :
  (forall x y, In x l -> In y l -> P x = true -> 0 < cmp x y -> P y = false) ->
  List.filter P (sortBy cmp l) = List.filter P l.
Proof.
  induction l as [|x l IH]; intros Hrank; [reflexivity|].
  cbn [sortBy]. rewrite insertBy_stable.
  - cbn [List.filter]. rewrite IH; [reflexivity|].
    intros a b Ha Hb. apply Hrank; now right.
  - intros Hx y Hy. apply (Hrank x y); [now left | right | assumption].
    apply (Permutation_in (l := sortBy cmp l)); [apply sortBy_perm | assumption].
Qed.

End StableSort.

Lemma StronglySorted_weaken {A : Type} (R R' : A -> A -> Prop) (l : list A) :
  (forall a b, In a l -> In b l -> R a b -> R' a b) ->
  StronglySorted R l -> StronglySorted R' l.
Proof.
  intros Himpl Hsorted. induction Hsorted as [|x l Hsorted IH Hx]; [constructor|].
  constructor.
  - apply IH. intros a b Ha Hb. apply Himpl; now right.
  - rewrite List.Forall_forall in *. intros b Hb.
    apply Himpl; [now left | now right | now apply Hx].
Qed.

Section ListViewFacts.

Context `{Host}.

Ltac compare_cases :=
  unfold compareTasks;
  repeat match goal with
         | Hd : Date_parse (remindTime ?t) = Some _ |- _ => rewrite Hd; clear Hd
         end;
  repeat match goal with
         | |- context [isCompleted ?t] => destruct (isCompleted t)
         end;
  cbn [Bool.eqb negb]; intros; try lia.

Lemma compareTasks_total (a b : Task) :
  Date_parse (remindTime a) <> None -> Date_parse (remindTime b) <> None ->
  0 < compareTasks a b -> compareTasks b a <= 0.
Proof.
  intros Ha Hb.
  destruct (Date_parse (remindTime a)) as [x|] eqn:Hda; [|congruence].
  destruct (Date_parse (remindTime b)) as [y|] eqn:Hdb; [|congruence].
  compare_cases.
Qed.

Lemma compareTasks_trans (a b c : Task) :
  Date_parse (remindTime a) <> None -> Date_parse (remindTime b) <> None ->
  Date_parse (remindTime c) <> None ->
  compareTasks a b <= 0 -> compareTasks b c <= 0 -> compareTasks a c <= 0.
Proof.
  intros Ha Hb Hc.
  destruct (Date_parse (remindTime a)) as [x|] eqn:Hda; [|congruence].
  destruct (Date_parse (remindTime b)) as [y|] eqn:Hdb; [|congruence].
  destruct (Date_parse (remindTime c)) as [z|] eqn:Hdc; [|congruence].
  compare_cases.
Qed.

Lemma compareTasks_rank (a x y : Task) :
  Date_parse (remindTime a) <> None -> Date_parse (remindTime x) <> None ->
  Date_parse (remindTime y) <> None ->
  compareTasks a x = 0 -> 0 < compareTasks x y -> compareTasks a y <> 0.
Proof.
  intros Ha Hx Hy.
  destruct (Date_parse (remindTime a)) as [u|] eqn:Hda; [|congruence].
  destruct (Date_parse (remindTime x)) as [v|] eqn:Hdx; [|congruence].
  destruct (Date_parse (remindTime y)) as [w|] eqn:Hdy; [|congruence].
  compare_cases.
Qed.

Lemma compareTasks_le (a b : Task) :
  compareTasks a b <= 0 ->
  (isCompleted a = true -> isCompleted b = true)
  /\ (isCompleted a = isCompleted b ->
      forall x y, Date_parse (remindTime a) = Some x ->
                  Date_parse (remindTime b) = Some y -> x <= y).
Proof.
  unfold compareTasks.
  destruct (isCompleted a), (isCompleted b); cbn [Bool.eqb negb]; intros Hle;
    (split; [intros; congruence || lia || reflexivity|]);
    intros Heq x y Hx Hy; try discriminate Heq; rewrite Hx, Hy in Hle; lia.
Qed.

(** X16.  The list view shows the tasks of the collection, each as often
    as it is there.  When every [remindTime] is a date, no completed task
    is shown before a pending one, within each group the reminder times
    ascend, and tasks that compare equal keep the order they have in the
    collection. *)
Theorem sortedTasks_is_the_stable_order (l : list Task) :
  Permutation (sortedTasks l) l
  /\ (List.Forall (fun t => Date_parse (remindTime t) <> None) l ->
      StronglySorted
        (fun a b =>
           (isCompleted a = true -> isCompleted b = true)
           /\ (isCompleted a = isCompleted b ->
               forall x y, Date_parse (remindTime a) = Some x ->
                           Date_parse (remindTime b) = Some y -> x <= y))
        (sortedTasks l)
      /\ forall a, In a l ->
           List.filter (fun b => compareTasks a b =? 0) (sortedTasks l) =
           List.filter (fun b => compareTasks a b =? 0) l).
Proof.
  unfold sortedTasks. split; [apply sortBy_perm|].
  intros Hdated. split.
  - apply (StronglySorted_weaken (fun a b => compareTasks a b <= 0)).
    + intros a b _ _. apply compareTasks_le.
    + apply (sortBy_sorted compareTasks (fun t => Date_parse (remindTime t) <> None));
        [apply compareTasks_total | apply compareTasks_trans | assumption].
  - intros a Ha. apply sortBy_stable.
    rewrite List.Forall_forall in Hdated.
    intros x y Hx Hy Hrank Hcmp. apply Z.eqb_eq in Hrank. apply Z.eqb_neq.
    apply (compareTasks_rank a x y); auto.
Qed.

End ListViewFacts.

Lemma sortedTasks_is_the_stable_order_witness :
  List.filter (fun b => @compareTasks taipeiHost report b =? 0)
    (@sortedTasks taipeiHost [flipCompleted report; standup; report]) =
  List.filter (fun b => @compareTasks taipeiHost report b =? 0)
    [flipCompleted report; standup; report].
Proof.
  apply (proj2 (@sortedTasks_is_the_stable_order taipeiHost
                  [flipCompleted report; standup; report])).
  - repeat constructor; vm_compute; discriminate.
  - right; right; left; reflexivity.
Defined.

Example sortedTasks_pending_first :
  @sortedTasks taipeiHost [flipCompleted report; tuesdayStandup; standup; report] =
    [tuesdayStandup; standup; report; flipCompleted report].
Proof. vm_compute. reflexivity. Qed.

(** X17.  A weekday has a label exactly when it is one of 0 to 6, and
    different weekdays have different labels; the labels shown for a task
    are those of its [repeatDays] that are weekdays, in their order, any
    other value being dropped. *)
Theorem repeatLabels_of_known_days (t : Task) :
  (forall d, 0 <= d <= 6 -> exists s, dayLabel d = Some s /\ s <> EmptyString)
  /\ (forall d, ~ 0 <= d <= 6 -> dayLabel d = None)
  /\ (forall d e s, dayLabel d = Some s -> dayLabel e = Some s -> d = e)
  /\ map Some (repeatLabelList t) =
       map dayLabel (List.filter (fun d => (0 <=? d) && (d <=? 6)) (repeatDays t)).
Proof.
  assert (Hknown : forall d, 0 <= d <= 6 ->
            exists s, dayLabel d = Some s /\ s <> EmptyString).
  { intros d Hd.
    assert (Hcases : d = 0 \/ d = 1 \/ d = 2 \/ d = 3 \/ d = 4 \/ d = 5 \/ d = 6) by lia.
    repeat (destruct Hcases as [-> | Hcases];
            [eexists; split; [reflexivity | discriminate]|]).
    subst. eexists; split; [reflexivity | discriminate]. }
  assert (Hunknown : forall d, ~ 0 <= d <= 6 -> dayLabel d = None).
  { intros d Hd. unfold dayLabel, DAYS_OF_WEEK. cbn [List.find fst snd].
    repeat match goal with
           | |- context [?n =? d] => destruct (Z.eqb_spec n d); [lia|]
           end.
    reflexivity. }
  split; [exact Hknown|]. split; [exact Hunknown|]. split.
  - intros d e s Hd He.
    assert (Hdr : 0 <= d <= 6).
    { destruct (Z_le_dec 0 d), (Z_le_dec d 6); try lia;
        rewrite Hunknown in Hd by lia; discriminate. }
    assert (Her : 0 <= e <= 6).
    { destruct (Z_le_dec 0 e), (Z_le_dec e 6); try lia;
        rewrite Hunknown in He by lia; discriminate. }
    assert (Hdc : d = 0 \/ d = 1 \/ d = 2 \/ d = 3 \/ d = 4 \/ d = 5 \/ d = 6) by lia.
    assert (Hec : e = 0 \/ e = 1 \/ e = 2 \/ e = 3 \/ e = 4 \/ e = 5 \/ e = 6) by lia.
    rewrite <- He in Hd. clear He s Hdr Her.
    repeat (destruct Hdc as [-> | Hdc]);
      repeat (destruct Hec as [-> | Hec]); subst;
      try reflexivity; discriminate Hd.
  - unfold repeatLabelList. induction (repeatDays t) as [|d days IH]; [reflexivity|].
    cbn [map List.filter filterBoolean].
    destruct ((0 <=? d) && (d <=? 6)) eqn:Hr.
    + apply andb_true_iff in Hr as [Hlo Hhi]. apply Z.leb_le in Hlo, Hhi.
      destruct (Hknown d (conj Hlo Hhi)) as (s & Hs & Hne). rewrite Hs.
      destruct s as [|c s]; [congruence|]. cbn [map]. now rewrite IH, Hs.
    + rewrite Hunknown; [assumption|].
      apply andb_false_iff in Hr as [Hr|Hr]; apply Z.leb_gt in Hr; lia.
Qed.

Lemma repeatLabels_of_known_days_witness :
  (exists s, dayLabel 3 = Some s /\ s <> EmptyString) /\ dayLabel 7 = None.
Proof.
  destruct (repeatLabels_of_known_days standup) as (Hknown & Hunknown & _).
  split; [apply Hknown; lia | apply Hunknown; lia].
Defined.

(** * Further properties of the gateway and of the permission *)

Section PermissionFacts.

Context `{Host}.

Lemma checkTask_permission_blind now (g1 g2 : bool) (st1 st2 : Monitor) (t : Task) :
  notified st1 = notified st2 ->
  map (fun f => (fire_now f, fire_task f)) (fired st1) =
    map (fun f => (fire_now f, fire_task f)) (fired st2) ->
  notified (checkTask now g1 st1 t) = notified (checkTask now g2 st2 t)
  /\ map (fun f => (fire_now f, fire_task f)) (fired (checkTask now g1 st1 t)) =
       map (fun f => (fire_now f, fire_task f)) (fired (checkTask now g2 st2 t)).
Proof.
  intros Hn Hf. unfold checkTask.
  destruct (negb (isActive t) || isCompleted t); [now split|].
  destruct (Date_parse (remindTime t)) as [taskTime|]; [|now split].
  destruct (inWindow now taskTime); [|now split].
  cbv zeta. do 2 case_bool_decide; cbn [negb]; try congruence; [now split|].
  destruct (shouldNotify now taskTime t); [|now split].
  cbn [notified fired]. rewrite Hn, !map_app, Hf. now split.
Qed.

(** X18.  The permission decides what is shown and nothing else: two runs
    over the same clock readings, whatever the permission at each tick,
    end with the same notified set and with the same tasks fired at the
    same instants. *)
Theorem permission_never_changes_what_fires (l : list Task) (ticks1 ticks2 : list Tick) :
  map fst ticks1 = map fst ticks2 ->
  notified (run l ticks1 initialMonitor) = notified (run l ticks2 initialMonitor)
  /\ map (fun f => (fire_now f, fire_task f)) (fired (run l ticks1 initialMonitor)) =
       map (fun f => (fire_now f, fire_task f)) (fired (run l ticks2 initialMonitor)).
Proof.
  assert (Htasks : forall now g1 g2 some st1 st2,
    notified st1 = notified st2 ->
    map (fun f => (fire_now f, fire_task f)) (fired st1) =
      map (fun f => (fire_now f, fire_task f)) (fired st2) ->
    notified (checkTasks now g1 some st1) = notified (checkTasks now g2 some st2)
    /\ map (fun f => (fire_now f, fire_task f)) (fired (checkTasks now g1 some st1)) =
         map (fun f => (fire_now f, fire_task f)) (fired (checkTasks now g2 some st2))).
  { intros now g1 g2 some. unfold checkTasks.
    induction some as [|u some IH]; intros st1 st2 Hn Hf; cbn [fold_left];
      [now split|].
    destruct (checkTask_permission_blind now g1 g2 st1 st2 u Hn Hf) as [Hn' Hf'].
    now apply IH. }
  assert (Hrun : forall ticks1 ticks2 st1 st2,
    map fst ticks1 = map fst ticks2 ->
    notified st1 = notified st2 ->
    map (fun f => (fire_now f, fire_task f)) (fired st1) =
      map (fun f => (fire_now f, fire_task f)) (fired st2) ->
    notified (run l ticks1 st1) = notified (run l ticks2 st2)
    /\ map (fun f => (fire_now f, fire_task f)) (fired (run l ticks1 st1)) =
         map (fun f => (fire_now f, fire_task f)) (fired (run l ticks2 st2))).
  { unfold run. clear ticks1 ticks2.
    induction ticks1 as [|[now1 g1] ticks1 IH]; intros [|[now2 g2] ticks2] st1 st2 Hticks Hn Hf;
      try discriminate Hticks; cbn [fold_left fst snd]; [now split|].
    cbn [map fst] in Hticks. injection Hticks as -> Hticks.
    destruct (Htasks now2 g1 g2 l st1 st2 Hn Hf) as [Hn' Hf'].
    now apply IH. }
  intros Hticks. now apply Hrun.
Qed.

End PermissionFacts.

Lemma permission_never_changes_what_fires_witness :
  notified (@run taipeiHost [standup; report]
              [(wednesday0900, true); (wednesday0900 + 1000, false)] initialMonitor) =
  notified (@run taipeiHost [standup; report]
              [(wednesday0900, false); (wednesday0900 + 1000, true)] initialMonitor).
Proof.
  apply (proj1 (@permission_never_changes_what_fires taipeiHost [standup; report]
                  [(wednesday0900, true); (wednesday0900 + 1000, false)]
                  [(wednesday0900, false); (wednesday0900 + 1000, true)] eq_refl)).
Defined.

Section GatewayEdges.

Context `{Host} `{Gemini}.

(** X19.  [getDailySummary] tests for the empty list before it leaves the
    completed tasks out: given a non-empty list of completed tasks only,
    it still sends its request, with a prompt that lists no task. *)
Theorem getDailySummary_tests_before_filtering (l : list Task) (sent : list Request) :
  l <> [] ->
  List.Forall (fun t => isCompleted t = true) l ->
  snd (getDailySummary l sent) = (sent ++ [summaryRequest l])%list
  /\ contents (summaryRequest l) = summaryPrompt EmptyString.
Proof.
  intros Hne Hdone. split.
  - destruct l as [|t l]; [congruence|].
    unfold getDailySummary, try_catch, bind, request, ret. cbn [length Nat.eqb].
    now destruct (generateContent (summaryRequest (t :: l))).
  - unfold summaryRequest. cbn [contents]. f_equal.
    replace (List.filter (fun t => negb (isCompleted t)) l) with (@nil Task);
      [reflexivity|].
    clear Hne. induction Hdone as [|t l Ht Hdone IH]; [reflexivity|].
    cbn [List.filter]. now rewrite Ht.
Qed.

End GatewayEdges.

Lemma getDailySummary_tests_before_filtering_witness :
  snd (@getDailySummary taipeiHost offlineGemini [flipCompleted report] []) =
    ([] ++ [@summaryRequest taipeiHost [flipCompleted report]])%list
  /\ contents (@summaryRequest taipeiHost [flipCompleted report]) =
       summaryPrompt EmptyString.
Proof.
  apply (@getDailySummary_tests_before_filtering taipeiHost offlineGemini
           [flipCompleted report] []).
  - discriminate.
  - repeat constructor.
Defined.

Lemma handleAddTask_adds_one_task_witness :
  exists c : TaskCategory,
    c = OTHER
    /\ @handleAddTask offlineGemini iso_of_time "0b9d6c8e-2a4f-4e1b-8c3d-7f6e5d4c3b2a"
         1704240000000 "交報告" (Some wednesday0900) [1; 3] emptyApp [] =
         ({| tasks :=
               [ {| id := "0b9d6c8e-2a4f-4e1b-8c3d-7f6e5d4c3b2a"; content := "交報告";
                    remindTime := iso_of_time wednesday0900; repeatDays := [1; 3];
                    category := c; isActive := true; isCompleted := false;
                    createdAt := 1704240000000 |} ];
             summary := None; isSummarizing := false; isAdding := false |},
          Fulfilled, [categoryRequest "交報告"]).
Proof.
  destruct (@handleAddTask_adds_one_task offlineGemini iso_of_time
              "0b9d6c8e-2a4f-4e1b-8c3d-7f6e5d4c3b2a" 1704240000000 "交報告"
              wednesday0900 [1; 3] emptyApp []) as (c & _ & Hother & Hadd).
  exists c. split; [|exact Hadd].
  apply Hother. exists (RequestError "fetch failed"). reflexivity.
Defined.

Example iso_of_time_reads_back :
  iso_of_time wednesday0900 = "2024-01-03T01:00:00.000Z"
  /\ parse_iso (iso_of_time 951868800001) = Some 951868800001.
Proof. split; vm_compute; reflexivity. Qed.
